(** * A shallow embedding of the finite-state-machine engine (machine.py)

    The engine binds a declarative set of states, triggers and guarded
    transitions onto a host object, the model.  The embedding follows the
    Python classes one by one: [State], [Condition], [Transition], [Event]
    and [Machine].  Python's object graph is flattened into one [World]:
    the machine's two registries, the attribute dictionary of the model and
    a log.  Every method is a function in a state-and-exception monad over
    that world, and an exception carries the world at the point of the
    raise, so that what a caller sees after a fault can be stated. *)

From stdpp Require Import base strings gmap list.
From Stdlib Require Import ZArith.

Set Default Proof Using "Type".
Open Scope Z_scope.
Open Scope string_scope.
Open Scope list_scope.

(** ** Python values *)

(** The plain data that guards return and that the model stores. *)
Inductive pyval :=
| VNone
| VBool (b : bool)
| VInt (z : Z)
| VStr (s : string).

#[global] Instance pyval_eq_dec : EqDecision pyval.
Proof. solve_decision. Defined.

(** Python's [==] on these values: [bool] is a subclass of [int], so
    [True == 1]; values of unrelated types are unequal. *)
Definition py_num (v : pyval) : option Z :=
  match v with
  | VBool b => Some (if b then 1 else 0)
  | VInt z => Some z
  | _ => None
  end.

Definition py_eq (a b : pyval) : bool :=
  match a, b with
  | VNone, VNone => true
  | VStr s, VStr s' => bool_decide (s = s')
  | _, _ =>
      match py_num a, py_num b with
      | Some x, Some y => bool_decide (x = y)
      | _, _ => false
      end
  end.

(** Python truthiness, used by [State.__init__] on its callback arguments. *)
Definition truthy_str (s : string) : bool :=
  match s with EmptyString => false | _ => true end.

(** The positional and keyword arguments of a call ([*args, **kwargs]). *)
Record Args := mkArgs { pos : list pyval; kw : gmap string pyval }.

Definition no_args : Args := mkArgs [] ∅.

Definition is_no_args (a : Args) : bool :=
  match pos a with
  | [] => bool_decide (kw a = ∅)
  | _ => false
  end.

(** A callback reference: the name of a callable of the model, or a
    callable handed over directly (identified by a number). *)
Inductive cbref :=
| RName (s : string)
| RFunc (f : nat).

#[global] Instance cbref_eq_dec : EqDecision cbref.
Proof. solve_decision. Defined.

(** What an attribute of the model may hold.  [AMethod] is a bound method
    ([inspect.ismethod] holds), [AFunc] any other user callable; the last
    three are the [functools.partial] objects the machine installs. *)
Inductive attr :=
| AData (v : pyval)
| AMethod (f : nat)
| AFunc (f : nat)
| AIsState (name : string)
| ATrigger (name : string)
| AGenericTrigger.

#[global] Instance attr_eq_dec : EqDecision attr.
Proof. solve_decision. Defined.

Definition str (s : string) : attr := AData (VStr s).

(** [hasattr(model, n) and inspect.ismethod(getattr(model, n))] *)
Definition is_bound_method (m : gmap string attr) (n : string) : bool :=
  match m !! n with
  | Some (AMethod _) => true
  | _ => false
  end.

(** ** Exceptions *)

(** [ValueError] carries the key that was looked up: its message is
    ["State '%s' is not a registered state." % key].  [MachineError]
    carries its message.  [AttributeError] and [KeyError] carry the missing
    name, [TypeError] stands for a call of a non-callable or with a wrong
    number of arguments, and [UserError] for whatever else user code
    raises. *)
Inductive exn :=
| MachineError (value : string)
| ValueError (key : attr)
| AttributeError (name : string)
| KeyError (key : string)
| TypeError
| UserError (tag : nat).

#[global] Instance exn_eq_dec : EqDecision exn.
Proof. solve_decision. Defined.

(** The result of running a user callable: a return value or an exception. *)
Definition outcome : Type := pyval + exn.

(** ** The classes' data *)

(** class State *)
Record State := mkState {
  state_name : string;
  state_on_enter : list cbref;
  state_on_exit : list cbref
}.

(** class Condition *)
Record Condition := mkCondition { cond_func : cbref }.

(** class Transition *)
Record Transition := mkTransition {
  tr_source : string;
  tr_dest : string;
  tr_conditions : list Condition
}.

(** class Event: [transitions] is a [defaultdict(list)] keyed by the name
    of the source state. *)
Record Event := mkEvent {
  event_name : string;
  event_transitions : gmap string (list Transition)
}.

(** class Machine: [states] is an [OrderedDict], [events] a [dict]; both
    are iterated in insertion order by [__init__], so both are association
    lists.  [_initial] is unset until [__init__] assigns it. *)
Record Machine := mkMachine {
  m_states : list (string * State);
  m_events : list (string * Event);
  m_initial : option string
}.

(** ** The log *)

(** Logging is not part of the engine's contract; the one [logger] call
    kept is the warning of [Machine.__init__].  The [G] entries are ghost:
    they record each call of [Transition.execute], and each call the engine
    issues through [Condition.check] and [Machine.trigger_callback]
    together with the value of [model.state] at the moment of the call. *)
Inductive tevent :=
| LWarnTrigger
| GExecute (source dest : string)
| GCheck (c : cbref) (st : option attr)
| GCallback (c : cbref) (a : Args) (st : option attr).

(** The transitions whose [execute] was entered, in order. *)
Definition executions (tr : list tevent) : list (string * string) :=
  omap (fun e => match e with GExecute s d => Some (s, d) | _ => None end) tr.

(** The guards and callbacks that were called, in order. *)
Definition is_call (e : tevent) : bool :=
  match e with
  | GCheck _ _ | GCallback _ _ _ => true
  | _ => false
  end.

Definition calls (tr : list tevent) : list tevent := List.filter is_call tr.

(** ** The world and the monad *)

Record World := mkWorld {
  machine : Machine;
  model : gmap string attr;
  trace : list tevent
}.

Inductive result (A : Type) :=
| Ok (v : A) (w : World)
| Raise (e : exn) (w : World).
Arguments Ok {A} v w.
Arguments Raise {A} e w.

Definition M (A : Type) : Type := World → result A.

Definition ret {A} (v : A) : M A := fun w => Ok v w.

Definition bind {A B} (c : M A) (k : A → M B) : M B :=
  fun w =>
    match c w with
    | Ok v w' => k v w'
    | Raise e w' => Raise e w'
    end.

Definition raise {A} (e : exn) : M A := fun w => Raise e w.

Declare Scope py_scope.
Delimit Scope py_scope with py.
Notation "x <- c ;; k" := (bind c (fun x => k))
  (at level 100, c at next level, right associativity) : py_scope.
Notation "c ;; k" := (bind c (fun _ => k))
  (at level 100, right associativity) : py_scope.
Open Scope py_scope.

Definition the_world : M World := fun w => Ok w w.

Definition log (e : tevent) : M unit :=
  fun w => Ok tt (mkWorld (machine w) (model w) (trace w ++ [e])).

Definition put_model (m : gmap string attr) : M unit :=
  fun w => Ok tt (mkWorld (machine w) m (trace w)).

Definition put_machine (mc : Machine) : M unit :=
  fun w => Ok tt (mkWorld mc (model w) (trace w)).

(** [for x in l: body(x)] *)
Fixpoint for_each {A} (l : list A) (body : A → M unit) : M unit :=
  match l with
  | [] => ret tt
  | x :: l' => body x ;; for_each l' body
  end.

(** ** Attribute access on the model *)

(** [getattr(model, n)] *)
Definition getattr (n : string) : M attr :=
  w <- the_world ;;
  match model w !! n with
  | Some a => ret a
  | None => raise (AttributeError n)
  end.

(** [setattr(model, n, a)] *)
Definition setattr (n : string) (a : attr) : M unit :=
  w <- the_world ;; put_model (<[n := a]> (model w)).

(** [hasattr(model, n)] *)
Definition hasattr (n : string) : M bool :=
  w <- the_world ;; ret (bool_decide (is_Some (model w !! n))).

(** ** Insertion-ordered dictionaries *)

Fixpoint od_get {V} (k : string) (d : list (string * V)) : option V :=
  match d with
  | [] => None
  | (k', v) :: d' => if decide (k = k') then Some v else od_get k d'
  end.

(** [d[k] = v]: an existing key keeps its position, a new one goes last. *)
Fixpoint od_set {V} (k : string) (v : V) (d : list (string * V)) : list (string * V) :=
  match d with
  | [] => [(k, v)]
  | (k', v') :: d' =>
      if decide (k = k') then (k, v) :: d' else (k', v') :: od_set k v d'
  end.

(** ** listify and the constructors *)

(** The [on_enter], [on_exit] and [conditions] parameters: [None], one
    reference, or a list of references. *)
Inductive cbarg :=
| CNone
| COne (c : cbref)
| CMany (l : list cbref).

Definition listify (obj : cbarg) : list cbref :=
  match obj with
  | CNone => []
  | CMany l => l
  | COne c => [c]
  end.

Definition truthy_cbarg (obj : cbarg) : bool :=
  match obj with
  | CNone => false
  | COne (RName s) => truthy_str s
  | COne (RFunc _) => true
  | CMany [] => false
  | CMany (_ :: _) => true
  end.

(** State.__init__ *)
Definition State_init (name : string) (on_enter on_exit : cbarg) : State :=
  mkState name
    (if truthy_cbarg on_enter then listify on_enter else [])
    (if truthy_cbarg on_exit then listify on_exit else []).

(** State.add_callback: [trigger] is ['on_enter'] or ['on_exit']. *)
Inductive cbkind := OnEnter | OnExit.

Definition State_add_callback (s : State) (trigger : cbkind) (func : cbref) : State :=
  match trigger with
  | OnEnter => mkState (state_name s) (state_on_enter s ++ [func]) (state_on_exit s)
  | OnExit => mkState (state_name s) (state_on_enter s) (state_on_exit s ++ [func])
  end.

(** Transition.__init__ *)
Definition Transition_init (source dest : string) (conditions : cbarg) : Transition :=
  mkTransition source dest
    (match conditions with
     | CNone => []
     | _ => map mkCondition (listify conditions)
     end).

(** Event.__init__ *)
Definition Event_init (name : string) : Event := mkEvent name ∅.

(** Event.add_transition: [self.transitions[transition.source].append(transition)] *)
Definition Event_add_transition (e : Event) (t : Transition) : Event :=
  mkEvent (event_name e)
    (<[tr_source t := default [] (event_transitions e !! tr_source t) ++ [t]]>
       (event_transitions e)).

(** ** The engine *)

Section Engine.

(** The behaviour of the callables the user supplies (methods of the model,
    functions passed as guards or callbacks): each acts on the attribute
    dictionary of the model and returns or raises.  They do not reach the
    machine's registries. *)
Variable user : nat → Args → gmap string attr → gmap string attr * outcome.

(** What calling one of the model's trigger entry points does when the
    call is issued from inside a guard or a callback ([Some n] is the entry
    point of trigger [n], [None] the generic one).  The registries are not
    written while a trigger runs, so such a nested call is again a function
    of the model's attributes. *)
Variable nested : option string → Args → gmap string attr → gmap string attr * outcome.

Definition run_user (b : gmap string attr → gmap string attr * outcome) : M pyval :=
  fun w =>
    let '(m', o) := b (model w) in
    let w' := mkWorld (machine w) m' (trace w) in
    match o with
    | inl v => Ok v w'
    | inr e => Raise e w'
    end.

(** Machine.is_state: [model.state == state] *)
Definition Machine_is_state (state : string) : M pyval :=
  st <- getattr "state" ;;
  ret (VBool (bool_decide (st = str state))).

(** Calling an attribute [a] of the model with the arguments [args]. *)
Definition call_attr (a : attr) (args : Args) : M pyval :=
  match a with
  | AMethod f | AFunc f => run_user (user f args)
  | AIsState n => if is_no_args args then Machine_is_state n else raise TypeError
  | ATrigger n => run_user (nested (Some n) args)
  | AGenericTrigger => run_user (nested None args)
  | AData _ => raise TypeError
  end.

(** [getattr(model, func) if isinstance(func, str) else func] *)
Definition resolve (func : cbref) : M attr :=
  match func with
  | RName s => getattr s
  | RFunc f => ret (AFunc f)
  end.

Definition observed_state : M (option attr) :=
  w <- the_world ;; ret (model w !! "state").

(** Machine.trigger_callback *)
Definition Machine_trigger_callback (func : cbref) (args : Args) : M unit :=
  f <- resolve func ;;
  st <- observed_state ;;
  log (GCallback func args st) ;;
  call_attr f args ;;
  ret tt.

(** State.enter *)
Definition State_enter (s : State) (args : Args) : M unit :=
  for_each (state_on_enter s) (fun oe => Machine_trigger_callback oe args).

(** State.exit *)
Definition State_exit (s : State) (args : Args) : M unit :=
  for_each (state_on_exit s) (fun oe => Machine_trigger_callback oe args).

(** Condition.check: [predicate() == target] *)
Definition Condition_check (c : Condition) (target : pyval) : M bool :=
  predicate <- resolve (cond_func c) ;;
  st <- observed_state ;;
  log (GCheck (cond_func c) st) ;;
  v <- call_attr predicate no_args ;;
  ret (py_eq v target).

(** Machine.get_state *)
Definition Machine_get_state (state : attr) : M State :=
  w <- the_world ;;
  match state with
  | AData (VStr s) =>
      match od_get s (m_states (machine w)) with
      | Some st => ret st
      | None => raise (ValueError state)
      end
  | _ => raise (ValueError state)
  end.

(** Machine.set_state, called with the name of a state. *)
Definition Machine_set_state (state : string) : M unit :=
  st <- Machine_get_state (str state) ;;
  setattr "state" (str (state_name st)).

(** The guard loop of Transition.execute: [false] is the early
    [return False], [true] is falling out of the loop. *)
Fixpoint check_all (cs : list Condition) (target : pyval) : M bool :=
  match cs with
  | [] => ret true
  | c :: cs' =>
      ok <- Condition_check c target ;;
      if ok then check_all cs' target else ret false
  end.

(** Transition.execute *)
Definition Transition_execute (t : Transition) (args : Args) (target : pyval) : M bool :=
  log (GExecute (tr_source t) (tr_dest t)) ;;
  ok <- check_all (tr_conditions t) target ;;
  if ok then
    src <- Machine_get_state (str (tr_source t)) ;;
    State_exit src args ;;
    Machine_set_state (tr_dest t) ;;
    dst <- Machine_get_state (str (tr_dest t)) ;;
    State_enter dst args ;;
    ret true
  else ret false.

(** The loop of Event._trigger.  Falling out of the loop reaches the end of
    the function body, and a Python function that ends without a [return]
    yields [None]. *)
Fixpoint try_each (ts : list Transition) (args : Args) (target : pyval) : M pyval :=
  match ts with
  | [] => ret VNone
  | t :: ts' =>
      taken <- Transition_execute t args target ;;
      if taken then ret (VBool true) else try_each ts' args target
  end.

(** [execute(self, event, *args, target=True, **kwargs)] takes a keyword
    argument named [target] out of what the trigger was called with. *)
Definition target_of (args : Args) : pyval := default (VBool true) (kw args !! "target").
Definition without_target (args : Args) : Args := mkArgs (pos args) (delete "target" (kw args)).

Definition trigger_message (event state : string) : string :=
  "Can't trigger event " +:+ event +:+ " from state " +:+ state +:+ "!".

(** Event._trigger.  The [try ... except Exception as e: raise e] around
    the loop re-raises the exception it caught. *)
Definition Event__trigger (self : Event) (args : Args) : M pyval :=
  st <- getattr "state" ;;
  state <- Machine_get_state st ;;
  match event_transitions self !! state_name state with
  | None => raise (MachineError (trigger_message (event_name self) (state_name state)))
  | Some ts => try_each ts (without_target args) (target_of args)
  end.

(** Event.trigger: [functools.partial(self._trigger, model, *args, **kwargs)()] *)
Definition Event_trigger (self : Event) (args : Args) : M pyval :=
  Event__trigger self args.

End Engine.

(** ** Building a machine *)

(** An element of the [states] list, or the first argument of [add_state]:
    a name, a dict of keyword arguments for [State], or a [State]
    instance.  Each descriptor stands for an object of its own. *)
Inductive descriptor :=
| DName (name : string)
| DDict (name : string) (on_enter on_exit : cbarg)
| DState (s : State).

Definition set_states (f : list (string * State) → list (string * State)) : M unit :=
  w <- the_world ;;
  put_machine (mkMachine (f (m_states (machine w))) (m_events (machine w))
                 (m_initial (machine w))).

Definition set_events (f : list (string * Event) → list (string * Event)) : M unit :=
  w <- the_world ;;
  put_machine (mkMachine (m_states (machine w)) (f (m_events (machine w)))
                 (m_initial (machine w))).

Definition set_initial (initial : string) : M unit :=
  w <- the_world ;;
  put_machine (mkMachine (m_states (machine w)) (m_events (machine w)) (Some initial)).

(** Machine._add_model_to_state.  The [State] object is changed in place by
    [add_callback]; the function returns the object as it is afterwards,
    and the caller keeps the registry entry that holds the object up to
    date. *)
Definition Machine__add_model_to_state (state : State) : M State :=
  setattr ("is_" +:+ state_name state) (AIsState (state_name state)) ;;
  let enter_callback := "on_enter_" +:+ state_name state in
  w <- the_world ;;
  let state :=
    if is_bound_method (model w) enter_callback
    then State_add_callback state OnEnter (RName enter_callback)
    else state in
  let exit_callback := "on_exit_" +:+ state_name state in
  w <- the_world ;;
  let state :=
    if is_bound_method (model w) exit_callback
    then State_add_callback state OnExit (RName exit_callback)
    else state in
  ret state.

(** Machine._add_trigger_to_model *)
Definition Machine__add_trigger_to_model (trigger : string) : M unit :=
  w <- the_world ;;
  match od_get trigger (m_events (machine w)) with
  | None => raise (KeyError trigger)
  | Some _ => setattr trigger (ATrigger trigger)
  end.

(** Machine.add_state *)
Definition Machine_add_state (state : descriptor) (on_enter on_exit : cbarg) : M unit :=
  let state :=
    match state with
    | DName n => State_init n on_enter on_exit
    | DDict n oe ox => State_init n oe ox
    | DState s => s
    end in
  set_states (od_set (state_name state) state) ;;
  state' <- Machine__add_model_to_state state ;;
  set_states (od_set (state_name state) state').

(** Machine.add_transition *)
Definition Machine_add_transition (trigger source dest : string) (conditions : cbarg) : M unit :=
  w <- the_world ;;
  match od_get trigger (m_events (machine w)) with
  | None =>
      set_events (od_set trigger (Event_init trigger)) ;;
      Machine__add_trigger_to_model trigger
  | Some _ => ret tt
  end ;;
  let t := Transition_init source dest conditions in
  w <- the_world ;;
  match od_get trigger (m_events (machine w)) with
  | None => raise (KeyError trigger)
  | Some e => set_events (od_set trigger (Event_add_transition e t))
  end.

(** Machine.__init__ *)
Definition Machine_init (states : list descriptor) (initial : string) : M unit :=
  put_machine (mkMachine [] [] None) ;;
  for_each states (fun state => Machine_add_state state CNone CNone) ;;
  w <- the_world ;;
  match od_get initial (m_states (machine w)) with
  | None => Machine_add_state (DName initial) CNone CNone
  | Some _ => ret tt
  end ;;
  set_initial initial ;;
  has <- hasattr "trigger" ;;
  (if has then log LWarnTrigger else setattr "trigger" AGenericTrigger) ;;
  w <- the_world ;;
  for_each (m_events (machine w))
    (fun '(trigger, _) => Machine__add_trigger_to_model trigger) ;;
  w <- the_world ;;
  for_each (m_states (machine w))
    (fun '(key, state) =>
       state' <- Machine__add_model_to_state state ;;
       set_states (od_set key state')) ;;
  Machine_set_state initial.

(** ** Runs of guards, callbacks and candidates *)

(** The world a result leaves behind. *)
Definition final {A} (r : result A) : World :=
  match r with
  | Ok _ w => w
  | Raise _ w => w
  end.

(** [c], run from [w], returns [v] and leaves [w'], and [model.state] is
    in [w'] what it was in [w]: the callable that ran did not assign it. *)
Definition returns_quietly {A} (c : M A) (v : A) (w w' : World) : Prop :=
  c w = Ok v w' ∧ model w' !! "state" = model w !! "state".

(** Every [f x], for [x] in the list and in that order, returns [v]
    quietly; the run starts in the first world and ends in the second. *)
Inductive all_quiet {X A} (f : X → M A) (v : A) : list X → World → World → Prop :=
| all_quiet_nil w : all_quiet f v [] w w
| all_quiet_cons x xs w w' w'' :
    returns_quietly (f x) v w w' →
    all_quiet f v xs w' w'' →
    all_quiet f v (x :: xs) w w''.

(** The world in which a call has been noted in the log. *)
Definition noted (e : tevent) (w : World) : World :=
  mkWorld (machine w) (model w) (trace w ++ [e]).

(** The world in which [Transition.execute] has just been entered. *)
Definition begun (t : Transition) (w : World) : World :=
  noted (GExecute (tr_source t) (tr_dest t)) w.

(** The world after [model.state = dest]. *)
Definition moved (dest : string) (w : World) : World :=
  mkWorld (machine w) (<["state" := str dest]> (model w)) (trace w).

(** Nothing between two such worlds wrote a registry or entered [execute]. *)
Definition calm (w w' : World) : Prop :=
  machine w' = machine w ∧ executions (trace w') = executions (trace w).

(** The [State] object that [add_state] registers for a descriptor. *)
Definition described (state : descriptor) (on_enter on_exit : cbarg) : State :=
  match state with
  | DName n => State_init n on_enter on_exit
  | DDict n oe ox => State_init n oe ox
  | DState s => s
  end.

(** A [State] with the callbacks that the model [m] offers for it by
    convention appended: what [_add_model_to_state] makes of the object. *)
Definition with_convention_callbacks (m : gmap string attr) (state : State) : State :=
  let state :=
    if is_bound_method m ("on_enter_" +:+ state_name state)
    then State_add_callback state OnEnter (RName ("on_enter_" +:+ state_name state))
    else state in
  if is_bound_method m ("on_exit_" +:+ state_name state)
  then State_add_callback state OnExit (RName ("on_exit_" +:+ state_name state))
  else state.

(** The model once the accessor [is_<name>] is attached. *)
Definition with_accessor (name : string) (m : gmap string attr) : gmap string attr :=
  <["is_" +:+ name := AIsState name]> m.

(** Every entry of the registry holds a state of the entry's name. *)
Definition all_named (d : list (string * State)) : Prop :=
  Forall (fun p => state_name p.2 = p.1) d.

(** From [w] to [w'] only states were registered and accessors attached:
    the log, the events and every attribute that is not an accessor are
    the same, registered names stay registered, and entries stay filed
    under their names. *)
Definition registered_only (w w' : World) : Prop :=
  trace w' = trace w ∧
  m_events (machine w') = m_events (machine w) ∧
  (∀ k, (∃ n, k = "is_" +:+ n) ∨ model w' !! k = model w !! k) ∧
  (all_named (m_states (machine w)) → all_named (m_states (machine w'))) ∧
  (∀ k, is_Some (od_get k (m_states (machine w))) →
        is_Some (od_get k (m_states (machine w')))).

(** Every state of the registry is filed under its own name. *)
Definition registry_ok (mc : Machine) : Prop :=
  ∀ k s, od_get k (m_states mc) = Some s → state_name s = k.


Section Runs.

Variable user : nat → Args → gmap string attr → gmap string attr * outcome.
Variable nested : option string → Args → gmap string attr → gmap string attr * outcome.

(** All guards of the list pass for [target]. *)
Definition guards_pass (target : pyval) : list Condition → World → World → Prop :=
  all_quiet (fun c => Condition_check user nested c target) true.


(** Every transition of the list, tried in order, reports "not taken". *)
Inductive rejected (args : Args) (target : pyval) : list Transition → World → World → Prop :=
| rejected_nil w : rejected args target [] w w
| rejected_cons t ts w w' w'' :
    Transition_execute user nested t args target w = Ok false w' →
    rejected args target ts w' w'' →
    rejected args target (t :: ts) w w''.


End Runs.


(** ** The entry points on the model and the queries of the machine *)

(** Python truthiness of a value and of an attribute: callables are true. *)
Definition truthy (v : pyval) : bool :=
  match v with
  | VNone => false
  | VBool b => b
  | VInt z => negb (bool_decide (z = 0))
  | VStr s => truthy_str s
  end.

Definition truthy_attr (a : attr) : bool :=
  match a with
  | AData v => truthy v
  | _ => true
  end.

Section Entry.

Variable user : nat → Args → gmap string attr → gmap string attr * outcome.
Variable nested : option string → Args → gmap string attr → gmap string attr * outcome.

(** The entry point of a trigger is [functools.partial(event.trigger,
    model)] for the [Event] object that the registry holds under the name
    of the trigger; the registry never drops that object, so the call
    finds it under its name. *)
Definition call_trigger (trigger : string) (args : Args) : M pyval :=
  w <- the_world ;;
  match od_get trigger (m_events (machine w)) with
  | Some e => Event_trigger user nested e args
  | None => raise (KeyError trigger)
  end.

(** Calling an attribute of the model from outside any trigger;
    [generic] is what the generic entry point does with these arguments. *)
Definition call_top (func : attr) (args : Args) (generic : M pyval) : M pyval :=
  match func with
  | ATrigger n => call_trigger n args
  | AGenericTrigger => generic
  | _ => call_attr user nested func args
  end.

(** The body of Machine._get_trigger once [trigger_name] is bound:
    [getattr(model, trigger_name, None)], which wants a string, then the
    truth test and the call. *)
Definition dispatch (trigger_name : pyval) (args : Args) (generic : M pyval) : M pyval :=
  match trigger_name with
  | VStr n =>
      w <- the_world ;;
      match model w !! n with
      | Some func =>
          if truthy_attr func then call_top func args generic
          else raise (AttributeError n)
      | None => raise (AttributeError n)
      end
  | _ => raise TypeError
  end.

(** Machine._get_trigger, as the model's [trigger] attribute calls it:
    [trigger_name] is the first positional argument, or else the keyword
    argument of that name; it is a [TypeError] to pass both or neither.
    When the attribute found is the generic entry point itself, the call
    goes round again with the arguments that are left. *)
Fixpoint Machine__get_trigger (pos : list pyval) (kw : gmap string pyval) : M pyval :=
  match pos with
  | trigger_name :: rest =>
      match kw !! "trigger_name" with
      | Some _ => raise TypeError
      | None => dispatch trigger_name (mkArgs rest kw) (Machine__get_trigger rest kw)
      end
  | [] =>
      match kw !! "trigger_name" with
      | Some trigger_name =>
          dispatch trigger_name (mkArgs [] (delete "trigger_name" kw)) (raise TypeError)
      | None => raise TypeError
      end
  end.

(** Calling the attribute [name] of the model with [args]. *)
Definition invoke (name : string) (args : Args) : M pyval :=
  func <- getattr name ;;
  call_top func args (Machine__get_trigger (pos args) (kw args)).

End Entry.

(** Machine.get_triggers: the triggers that have a transition from one of
    the states, in the order of the event registry. *)
Definition has_transition_from (states : list string) (ev : Event) : bool :=
  existsb (fun state => bool_decide (is_Some (event_transitions ev !! state))) states.

Definition Machine_get_triggers (states : list string) : M (list string) :=
  w <- the_world ;;
  ret (map fst (List.filter (fun p => has_transition_from states p.2) (m_events (machine w)))).

(** Machine.initial *)
Definition Machine_initial : M string :=
  w <- the_world ;;
  match m_initial (machine w) with
  | Some s => ret s
  | None => raise (AttributeError "_initial")
  end.

(** ** More notions for stating facts *)

(** Everything the log gained from [w] to [w'] satisfies [P]. *)
Definition appended (P : tevent → Prop) (w w' : World) : Prop :=
  ∃ l, trace w' = trace w ++ l ∧ Forall P l.


(** The entry is not a callback: only [execute] and guards ran. *)
Definition no_callback (e : tevent) : Prop :=
  match e with
  | GCallback _ _ _ => False
  | _ => True
  end.

(** The names under which the registry files states, in order. *)
Definition state_names (w : World) : list string := map fst (m_states (machine w)).

(** The convention callbacks of a state called [k], as references. *)
Definition enter_convention (k : string) : cbref := RName ("on_enter_" +:+ k).
Definition exit_convention (k : string) : cbref := RName ("on_exit_" +:+ k).

(** [n] copies of [c] when [b] holds, nothing otherwise. *)
Definition copies (b : bool) (c : cbref) (n : nat) : list cbref :=
  if b then repeat c n else [].

(** The state [st], filed under [k], was made from a descriptor of the
    list [ds] that is called [k]: its callback lists are those of the
    descriptor followed by [n] copies of each convention callback that the
    model [m] offers for [k]. *)
Definition bound_from (ds : list descriptor) (n : nat) (m : gmap string attr)
    (k : string) (st : State) : Prop :=
  ∃ d, d ∈ ds ∧ state_name (described d CNone CNone) = k ∧
       state_on_enter st =
         state_on_enter (described d CNone CNone)
         ++ copies (is_bound_method m ("on_enter_" +:+ k)) (enter_convention k) n ∧
       state_on_exit st =
         state_on_exit (described d CNone CNone)
         ++ copies (is_bound_method m ("on_exit_" +:+ k)) (exit_convention k) n.

(** Two models offer the same convention callbacks. *)
Definition same_conventions (m m' : gmap string attr) : Prop :=
  ∀ k, is_bound_method m' ("on_enter_" +:+ k) = is_bound_method m ("on_enter_" +:+ k) ∧
       is_bound_method m' ("on_exit_" +:+ k) = is_bound_method m ("on_exit_" +:+ k).

(** Every registered state has its accessor on the model. *)
Definition accessors_ok (w : World) : Prop :=
  ∀ k, is_Some (od_get k (m_states (machine w))) →
       model w !! ("is_" +:+ k) = Some (AIsState k).

(** ** The worlds that the construction passes through *)

(** The name under which a descriptor is registered. *)
Definition descriptor_name (d : descriptor) : string := state_name (described d CNone CNone).

(** The world that [add_state] leaves. *)
Definition registered (d : descriptor) (on_enter on_exit : cbarg) (w : World) : World :=
  let st := described d on_enter on_exit in
  let m' := with_accessor (state_name st) (model w) in
  mkWorld
    (mkMachine (od_set (state_name st) (with_convention_callbacks m' st) (m_states (machine w)))
       (m_events (machine w)) (m_initial (machine w)))
    m' (trace w).

(** The world that one round of the second binding loop of [__init__]
    leaves, for the entry [p] of the registry. *)
Definition rebound (p : string * State) (w : World) : World :=
  let m' := with_accessor (state_name p.2) (model w) in
  mkWorld
    (mkMachine (od_set p.1 (with_convention_callbacks m' p.2) (m_states (machine w)))
       (m_events (machine w)) (m_initial (machine w)))
    m' (trace w).

(** The world in which the generic entry point has been seen to. *)
Definition with_generic_trigger (initial : string) (w : World) : World :=
  mkWorld (mkMachine (m_states (machine w)) (m_events (machine w)) (Some initial))
    (match model w !! "trigger" with
     | Some _ => model w
     | None => <["trigger" := AGenericTrigger]> (model w)
     end)
    (trace w ++ match model w !! "trigger" with
                | Some _ => [LWarnTrigger]
                | None => []
                end).

(** The world that [Machine.__init__] leaves. *)
Definition constructed (states : list descriptor) (initial : string) (w : World) : World :=
  let w0 := mkWorld (mkMachine [] [] None) (model w) (trace w) in
  let w1 := foldl (fun w d => registered d CNone CNone w) w0 states in
  let w2 :=
    match od_get initial (m_states (machine w1)) with
    | None => registered (DName initial) CNone CNone w1
    | Some _ => w1
    end in
  let w3 := with_generic_trigger initial w2 in
  let w4 := foldl (fun w p => rebound p w) w3 (m_states (machine w3)) in
  moved initial w4.

(** Two models offer the same attributes apart from accessors. *)
Definition same_but_accessors (m m' : gmap string attr) : Prop :=
  ∀ k, (∃ n, k = "is_" +:+ n) ∨ m' !! k = m !! k.

(** ** What a machine built through its methods looks like *)

(** The event filed under the trigger [t] is named [t], and each of its
    lists is not empty and holds transitions that leave the state under
    which the list is filed. *)
Definition event_ok (t : string) (e : Event) : Prop :=
  event_name e = t ∧
  ∀ k ts, event_transitions e !! k = Some ts →
          ts ≠ [] ∧ Forall (fun tr => tr_source tr = k) ts.

(** No name is registered twice, every state and every event is filed
    under its own name, and every transition under its source. *)
Definition well_formed (mc : Machine) : Prop :=
  NoDup (map fst (m_states mc)) ∧
  all_named (m_states mc) ∧
  NoDup (map fst (m_events mc)) ∧
  Forall (fun p => event_ok p.1 p.2) (m_events mc).

(** The answer of [get_triggers] in the world [w]. *)
Definition triggers_from (states : list string) (w : World) : list string :=
  map fst (List.filter (fun p => has_transition_from states p.2) (m_events (machine w))).
(** ** The host object of example.py *)

Module TestObject.

(** The [i]-th positional argument, else the keyword argument [k], else
    the default [d]; the methods below take integers. *)
Definition int_arg (a : Args) (i : nat) (k : string) (d : Z) : option Z :=
  match pos a !! i with
  | Some (VInt z) => Some z
  | Some _ => None
  | None =>
      match kw a !! k with
      | Some (VInt z) => Some z
      | Some _ => None
      | None => Some d
      end
  end.

(** The methods of the class: 0 is [update_journal], 1 is [is_exhausted],
    2 is [on_exit_asleep]. *)
Definition methods (f : nat) (a : Args) (m : gmap string attr) : gmap string attr * outcome :=
  match f with
  | 0%nat =>
      match m !! "kittens_rescued" with
      | Some (AData (VInt k)) => (<["kittens_rescued" := AData (VInt (k + 1))]> m, inl VNone)
      | _ => (m, inr TypeError)
      end
  | 1%nat => (m, inl (VBool false))
  | 2%nat =>
      match int_arg a 0 "a" 100, int_arg a 1 "b" 200 with
      | Some x, Some y => (<["internal_state" := AData (VInt (x + y))]> m, inl VNone)
      | _, _ => (m, inr TypeError)
      end
  | _ => (m, inr (UserError 0))
  end.

(** No guard or callback of the example calls a trigger. *)
Definition no_nested (n : option string) (a : Args) (m : gmap string attr)
    : gmap string attr * outcome :=
  (m, inr (UserError 1)).

(** The object when [__init__] reaches the construction of the machine. *)
Definition self : gmap string attr :=
  <["name" := str "harry"]>
    (<["kittens_rescued" := AData (VInt 0)]>
       (<["update_journal" := AMethod 0]>
          (<["is_exhausted" := AMethod 1]>
             (<["on_exit_asleep" := AMethod 2]> ∅)))).

Definition states : list descriptor :=
  map DName ["asleep"; "hanging"; "hungry"; "sweaty"; "saving the world"].

(** TestObject.__init__ *)
Definition init : M unit :=
  Machine_init states "asleep" ;;
  Machine_add_transition "wake_up" "asleep" "hanging" CNone ;;
  Machine_add_transition "work_out" "hanging" "hungry" CNone ;;
  Machine_add_transition "work_out" "asleep" "hungry" CNone ;;
  Machine_add_transition "hiit" "hanging" "sweaty" CNone ;;
  Machine_add_transition "eat" "hungry" "hanging" CNone ;;
  Machine_add_transition "clean_up" "sweaty" "asleep" (CMany [RName "is_exhausted"]) ;;
  Machine_add_transition "clean_up" "sweaty" "hanging" CNone.

Definition blank : World := mkWorld (mkMachine [] [] None) self [].

(** Calling the entry point that the machine installed on the object for
    a trigger. *)
Definition fire (trigger : string) (a : Args) : M pyval :=
  w <- the_world ;;
  match od_get trigger (m_events (machine w)) with
  | Some e => Event_trigger methods no_nested e a
  | None => raise (KeyError trigger)
  end.

(** The object as [setUp] leaves it. *)
Definition harry : World := Eval vm_compute in final (init blank).

(** The object after [work_out(); eat(); hiit()]: it is sweaty. *)
Definition sweaty_harry : World :=
  Eval vm_compute in
    final ((fire "work_out" no_args ;; fire "eat" no_args ;; fire "hiit" no_args) harry).

Definition event (trigger : string) (w : World) : Event :=
  default (Event_init trigger) (od_get trigger (m_events (machine w))).

(** The sweaty object with one more trigger, [nap], whose only candidate
    is guarded by [is_exhausted]. *)
Definition napper : World :=
  Eval vm_compute in
    final (Machine_add_transition "nap" "sweaty" "asleep" (COne (RName "is_exhausted"))
             sweaty_harry).



End TestObject.

(** * Facts *)

Section Facts.

Variable user : nat → Args → gmap string attr → gmap string attr * outcome.
Variable nested : option string → Args → gmap string attr → gmap string attr * outcome.

Lemma bind_ok {A B} (c : M A) (k : A → M B) w v w' :
  c w = Ok v w' → bind c k w = k v w'.
Proof. unfold bind. by intros ->. Qed.


(** *** What the engine's steps leave alone *)

(** Calling an attribute changes the model at most. *)
Lemma call_attr_frame a args w :
  machine (final (call_attr user nested a args w)) = machine w ∧
  trace (final (call_attr user nested a args w)) = trace w.
Proof.
  destruct a; simpl; unfold run_user, Machine_is_state, getattr, bind, the_world, ret, raise;
    simpl; try done.
  - destruct (user f args (model w)) as [m' [v|e]]; done.
  - destruct (user f args (model w)) as [m' [v|e]]; done.
  - destruct (is_no_args args); [|done]. destruct (model w !! "state"); done.
  - destruct (nested (Some name) args (model w)) as [m' [v|e]]; done.
  - destruct (nested None args (model w)) as [m' [v|e]]; done.
Qed.

Lemma resolve_world c w :
  final (resolve c w) = w.
Proof.
  destruct c; simpl; [|done].
  unfold getattr, bind, the_world, ret, raise. destruct (model w !! s); done.
Qed.

Lemma resolve_ok c w a w' : resolve c w = Ok a w' → w' = w.
Proof. intros H. pose proof (resolve_world c w) as Hw. by rewrite H in Hw. Qed.

Lemma resolve_raise c w e w' : resolve c w = Raise e w' → w' = w.
Proof. intros H. pose proof (resolve_world c w) as Hw. by rewrite H in Hw. Qed.


Lemma trigger_callback_unfold c args w :
  Machine_trigger_callback user nested c args w =
  match resolve c w with
  | Ok f _ =>
      match call_attr user nested f args (noted (GCallback c args (model w !! "state")) w) with
      | Ok _ w' => Ok tt w'
      | Raise e w' => Raise e w'
      end
  | Raise e _ => Raise e w
  end.
Proof.
  unfold Machine_trigger_callback, bind.
  destruct (resolve c w) as [f w1|e w1] eqn:Hr.
  - apply resolve_ok in Hr as ->. done.
  - apply resolve_raise in Hr as ->. done.
Qed.

Lemma check_unfold c target w :
  Condition_check user nested c target w =
  match resolve (cond_func c) w with
  | Ok f _ =>
      match call_attr user nested f no_args (noted (GCheck (cond_func c) (model w !! "state")) w) with
      | Ok v w' => Ok (py_eq v target) w'
      | Raise e w' => Raise e w'
      end
  | Raise e _ => Raise e w
  end.
Proof.
  unfold Condition_check, bind.
  destruct (resolve (cond_func c) w) as [f w1|e w1] eqn:Hr.
  - apply resolve_ok in Hr as ->. done.
  - apply resolve_raise in Hr as ->. done.
Qed.

(** A callback that returns has been noted once, with the state the model
    reported when it was called. *)
Lemma trigger_callback_ok c args w w' :
  Machine_trigger_callback user nested c args w = Ok tt w' →
  machine w' = machine w ∧
  trace w' = trace w ++ [GCallback c args (model w !! "state")].
Proof.
  rewrite trigger_callback_unfold.
  destruct (resolve c w) as [f ?|]; [|done].
  pose proof (call_attr_frame f args (noted (GCallback c args (model w !! "state")) w)) as [Hm Ht].
  destruct (call_attr _ _ _ _ _) as [v w1|e w1]; [|done].
  intros [= <-]. done.
Qed.

(** A callback that raises has been noted at most once, and no registry
    was touched. *)
Lemma trigger_callback_raise c args w e w' :
  Machine_trigger_callback user nested c args w = Raise e w' →
  machine w' = machine w ∧
  (trace w' = trace w ∨ trace w' = trace w ++ [GCallback c args (model w !! "state")]).
Proof.
  rewrite trigger_callback_unfold.
  destruct (resolve c w) as [f ?|]; [|intros [= <- <-]; auto].
  pose proof (call_attr_frame f args (noted (GCallback c args (model w !! "state")) w)) as [Hm Ht].
  destruct (call_attr _ _ _ _ _) as [v w1|e1 w1]; [done|].
  intros [= <- <-]. auto.
Qed.

Lemma check_ok c target w b w' :
  Condition_check user nested c target w = Ok b w' →
  machine w' = machine w ∧
  trace w' = trace w ++ [GCheck (cond_func c) (model w !! "state")].
Proof.
  rewrite check_unfold.
  destruct (resolve (cond_func c) w) as [f ?|]; [|done].
  pose proof (call_attr_frame f no_args (noted (GCheck (cond_func c) (model w !! "state")) w)) as [Hm Ht].
  destruct (call_attr _ _ _ _ _) as [v w1|e w1]; [|done].
  intros [= <- <-]. done.
Qed.

Lemma check_raise c target w e w' :
  Condition_check user nested c target w = Raise e w' →
  machine w' = machine w ∧
  (trace w' = trace w ∨ trace w' = trace w ++ [GCheck (cond_func c) (model w !! "state")]).
Proof.
  rewrite check_unfold.
  destruct (resolve (cond_func c) w) as [f ?|]; [|intros [= <- <-]; auto].
  pose proof (call_attr_frame f no_args (noted (GCheck (cond_func c) (model w !! "state")) w)) as [Hm Ht].
  destruct (call_attr _ _ _ _ _) as [v w1|e1 w1]; [done|].
  intros [= <- <-]. auto.
Qed.

(** *** Runs of callbacks and of guards *)

Lemma all_quiet_app {X A} (f : X → M A) v xs ys w w' w'' :
  all_quiet f v xs w w' → all_quiet f v ys w' w'' → all_quiet f v (xs ++ ys) w w''.
Proof.
  induction 1; simpl; [done|]. intros. econstructor; eauto.
Qed.

Lemma all_quiet_state {X A} (f : X → M A) v xs w w' :
  all_quiet f v xs w w' → model w' !! "state" = model w !! "state".
Proof.
  induction 1 as [|x xs w w1 w2 [_ Hq] _ IH]; [done|]. by rewrite IH.
Qed.



Lemma guards_pass_run target cs w w' :
  guards_pass user nested target cs w w' →
  check_all user nested cs target w = Ok true w'.
Proof.
  induction 1 as [|c cs w w1 w2 [Hc _] _ IH]; [done|].
  simpl. by rewrite (bind_ok _ _ _ _ _ Hc).
Qed.

Lemma guards_pass_trace target cs w w' :
  guards_pass user nested target cs w w' →
  machine w' = machine w ∧
  trace w' = trace w ++ map (fun c => GCheck (cond_func c) (model w !! "state")) cs.
Proof.
  induction 1 as [|c cs w w1 w2 [Hc Hq] _ [IHm IHt]]; simpl.
  - by rewrite app_nil_r.
  - apply check_ok in Hc as [Hm Ht].
    rewrite IHm, IHt, Ht, Hm, Hq, <- app_assoc. done.
Qed.


(** *** Looking a state up and setting it *)

Lemma get_state_ok s st w :
  od_get s (m_states (machine w)) = Some st →
  Machine_get_state (str s) w = Ok st w.
Proof. unfold Machine_get_state, bind, the_world, ret. simpl. by intros ->. Qed.

Lemma get_state_unregistered s w :
  od_get s (m_states (machine w)) = None →
  Machine_get_state (str s) w = Raise (ValueError (str s)) w.
Proof. unfold Machine_get_state, bind, the_world, raise. simpl. by intros ->. Qed.

Lemma set_state_ok s st w :
  od_get s (m_states (machine w)) = Some st →
  Machine_set_state s w = Ok tt (moved (state_name st) w).
Proof.
  intros H. unfold Machine_set_state. rewrite (bind_ok _ _ _ _ _ (get_state_ok _ _ _ H)).
  done.
Qed.


(** *** Transition.execute, phase by phase *)

Lemma execute_unfold t args target w :
  Transition_execute user nested t args target w =
  match check_all user nested (tr_conditions t) target (begun t w) with
  | Ok true w1 =>
      (src <- Machine_get_state (str (tr_source t)) ;;
       State_exit user nested src args ;;
       Machine_set_state (tr_dest t) ;;
       dst <- Machine_get_state (str (tr_dest t)) ;;
       State_enter user nested dst args ;;
       ret true) w1
  | Ok false w1 => Ok false w1
  | Raise e w1 => Raise e w1
  end.
Proof.
  unfold Transition_execute. unfold bind at 1. simpl. unfold bind at 1.
  fold (begun t w).
  destruct (check_all _ _ _ _ _) as [[] w1|e w1]; done.
Qed.

(** The guards passed: what is left of [execute] is the commit. *)
Lemma execute_passed t args target w w1 :
  guards_pass user nested target (tr_conditions t) (begun t w) w1 →
  Transition_execute user nested t args target w =
  (src <- Machine_get_state (str (tr_source t)) ;;
   State_exit user nested src args ;;
   Machine_set_state (tr_dest t) ;;
   dst <- Machine_get_state (str (tr_dest t)) ;;
   State_enter user nested dst args ;;
   ret true) w1 ∧
  machine w1 = machine w ∧
  model w1 !! "state" = model w !! "state" ∧
  trace w1 = trace w ++ GExecute (tr_source t) (tr_dest t)
               :: map (fun c => GCheck (cond_func c) (model w !! "state")) (tr_conditions t).
Proof.
  intros Hg. rewrite execute_unfold, (guards_pass_run _ _ _ _ Hg).
  split; [done|].
  destruct (guards_pass_trace _ _ _ _ Hg) as [Hm Ht].
  split; [done|]. split; [by rewrite (all_quiet_state _ _ _ _ _ Hg)|].
  rewrite Ht. simpl. by rewrite <- app_assoc.
Qed.


(** *** The commit *)



(** *** Guards that stop the transition *)



(** *** What a whole [execute] leaves alone *)

Lemma calm_refl w : calm w w.
Proof. done. Qed.

Lemma calm_trans w1 w2 w3 : calm w1 w2 → calm w2 w3 → calm w1 w3.
Proof. intros [? ?] [? ?]. split; congruence. Qed.

Lemma executions_snoc_call tr e :
  is_call e = true → executions (tr ++ [e]) = executions tr.
Proof.
  intros He. unfold executions. rewrite omap_app. simpl.
  destruct e; try done; by rewrite app_nil_r.
Qed.

Lemma trigger_callback_calm c args w :
  calm w (final (Machine_trigger_callback user nested c args w)).
Proof.
  destruct (Machine_trigger_callback _ _ _ _ _) as [[] w'|e w'] eqn:H; simpl.
  - apply trigger_callback_ok in H as [Hm Ht]. split; [done|].
    rewrite Ht. by apply executions_snoc_call.
  - apply trigger_callback_raise in H as [Hm [Ht|Ht]]; (split; [done|]); rewrite Ht;
      [done | by apply executions_snoc_call].
Qed.

Lemma check_calm c target w :
  calm w (final (Condition_check user nested c target w)).
Proof.
  destruct (Condition_check _ _ _ _ _) as [b w'|e w'] eqn:H; simpl.
  - apply check_ok in H as [Hm Ht]. split; [done|].
    rewrite Ht. by apply executions_snoc_call.
  - apply check_raise in H as [Hm [Ht|Ht]]; (split; [done|]); rewrite Ht;
      [done | by apply executions_snoc_call].
Qed.

Lemma bind_calm {A B} (c : M A) (k : A → M B) w :
  calm w (final (c w)) →
  (∀ v w', calm w' (final (k v w'))) →
  calm w (final (bind c k w)).
Proof.
  intros Hc Hk. unfold bind. destruct (c w) as [v w'|e w']; simpl in *; [|done].
  eapply calm_trans; [exact Hc | apply Hk].
Qed.

Lemma callbacks_calm args cs w :
  calm w (final (for_each cs (fun oe => Machine_trigger_callback user nested oe args) w)).
Proof.
  revert w. induction cs as [|c cs IH]; intros w; simpl; [done|].
  apply bind_calm; [apply trigger_callback_calm | intros _ w'; apply IH].
Qed.

Lemma check_all_calm cs target w :
  calm w (final (check_all user nested cs target w)).
Proof.
  revert w. induction cs as [|c cs IH]; intros w; simpl; [done|].
  apply bind_calm; [apply check_calm|]. intros [] w'; [apply IH | done].
Qed.

Lemma get_state_world st w : final (Machine_get_state st w) = w.
Proof.
  unfold Machine_get_state, bind, the_world, ret, raise. simpl.
  destruct st as [[| | |s]| | | | |]; try done.
  destruct (od_get s _); done.
Qed.

Lemma get_state_calm st w : calm w (final (Machine_get_state st w)).
Proof. rewrite get_state_world. apply calm_refl. Qed.

Lemma set_state_calm s w : calm w (final (Machine_set_state s w)).
Proof.
  unfold Machine_set_state. apply bind_calm; [apply get_state_calm|].
  intros st w'. done.
Qed.

(** Whatever its outcome, [execute] writes no registry and is entered once. *)
Lemma execute_frame t args target w :
  machine (final (Transition_execute user nested t args target w)) = machine w ∧
  executions (trace (final (Transition_execute user nested t args target w))) =
    executions (trace w) ++ [(tr_source t, tr_dest t)].
Proof.
  assert (Hb : machine (begun t w) = machine w ∧
               executions (trace (begun t w)) =
                 executions (trace w) ++ [(tr_source t, tr_dest t)]).
  { split; [done|]. unfold executions. simpl. by rewrite omap_app. }
  assert (calm (begun t w) (final (Transition_execute user nested t args target w))) as [Hm He].
  { rewrite execute_unfold.
    pose proof (check_all_calm (tr_conditions t) target (begun t w)) as Hc.
    destruct (check_all _ _ _ _ _) as [[] w1|e w1]; simpl in Hc; try done.
    eapply calm_trans; [exact Hc|].
    apply bind_calm; [apply get_state_calm|]. intros src w2.
    apply bind_calm; [apply callbacks_calm|]. intros _ w3.
    apply bind_calm; [apply set_state_calm|]. intros _ w4.
    apply bind_calm; [apply get_state_calm|]. intros dst w5.
    apply bind_calm; [apply callbacks_calm|]. intros _ w6. done. }
  destruct Hb as [Hbm Hbe]. split; congruence.
Qed.


(** *** Event._trigger *)

Lemma trigger_unfold self args w s state :
  model w !! "state" = Some (str s) →
  od_get s (m_states (machine w)) = Some state →
  Event__trigger user nested self args w =
  match event_transitions self !! state_name state with
  | None => Raise (MachineError (trigger_message (event_name self) (state_name state))) w
  | Some ts => try_each user nested ts (without_target args) (target_of args) w
  end.
Proof.
  intros Hst Hreg. unfold Event__trigger.
  assert (Hg : getattr "state" w = Ok (str s) w).
  { unfold getattr, bind, the_world. simpl. by rewrite Hst. }
  rewrite (bind_ok _ _ _ _ _ Hg), (bind_ok _ _ _ _ _ (get_state_ok _ _ _ Hreg)).
  destruct (event_transitions self !! state_name state); done.
Qed.

Lemma try_each_rejected args target pre rest w w1 :
  rejected user nested args target pre w w1 →
  try_each user nested (pre ++ rest) args target w = try_each user nested rest args target w1.
Proof.
  induction 1 as [|t ts w w' w'' Ht _ IH]; [done|].
  simpl. by rewrite (bind_ok _ _ _ _ _ Ht).
Qed.

Lemma rejected_frame args target ts w w1 :
  rejected user nested args target ts w w1 →
  machine w1 = machine w ∧
  executions (trace w1) = executions (trace w) ++ map (fun t => (tr_source t, tr_dest t)) ts.
Proof.
  induction 1 as [|t ts w w' w'' Ht _ [IHm IHe]]; simpl.
  - by rewrite app_nil_r.
  - destruct (execute_frame t args target w) as [Hm He]. rewrite Ht in Hm, He. simpl in *.
    rewrite IHm, IHe, Hm, He, <- app_assoc. done.
Qed.

(** When every candidate reports "not taken", the loop of [_trigger] runs
    out and the call returns [None]. *)
Lemma trigger_all_rejected self args w s state ts w1 :
  model w !! "state" = Some (str s) →
  od_get s (m_states (machine w)) = Some state →
  event_transitions self !! state_name state = Some ts →
  rejected user nested (without_target args) (target_of args) ts w w1 →
  Event_trigger user nested self args w = Ok VNone w1.
Proof.
  intros Hst Hreg Hts Hrej. unfold Event_trigger.
  rewrite (trigger_unfold _ _ _ _ _ Hst Hreg), Hts.
  rewrite <- (app_nil_r ts), (try_each_rejected _ _ _ _ _ _ Hrej). done.
Qed.

Lemma add_transition_lookup e t k :
  event_transitions (Event_add_transition e t) !! k =
  if decide (tr_source t = k)
  then Some (default [] (event_transitions e !! k) ++ [t])
  else event_transitions e !! k.
Proof.
  unfold Event_add_transition. simpl. rewrite lookup_insert.
  case_decide; [by subst|done].
Qed.




(** *** Faults of user code *)




(** *** Insertion-ordered dictionaries *)

Lemma od_get_set_eq {V} k (v : V) d : od_get k (od_set k v d) = Some v.
Proof.
  induction d as [|[k' v'] d IH]; simpl.
  - by rewrite decide_True.
  - destruct (decide (k = k')) as [->|Hne]; simpl.
    + by rewrite decide_True.
    + by rewrite decide_False.
Qed.

Lemma od_get_set_ne {V} k k' (v : V) d : k ≠ k' → od_get k' (od_set k v d) = od_get k' d.
Proof.
  intros Hne. induction d as [|[k0 v0] d IH]; simpl.
  - by rewrite decide_False.
  - destruct (decide (k = k0)) as [->|Hne0]; simpl.
    + by rewrite !decide_False.
    + by rewrite IH.
Qed.

Lemma od_set_set {V} k (v v' : V) d : od_set k v' (od_set k v d) = od_set k v' d.
Proof.
  induction d as [|[k0 v0] d IH]; simpl.
  - by rewrite decide_True.
  - destruct (decide (k = k0)) as [->|Hne]; simpl.
    + by rewrite decide_True.
    + by rewrite decide_False, IH.
Qed.


(** *** Machine.add_transition *)

(** [add_transition] always returns.  It looks at neither the source nor
    the destination name; it writes the event registry, and the model only
    when the trigger is new. *)
Lemma add_transition_run trigger source dest conditions w :
  Machine_add_transition trigger source dest conditions w =
  Ok tt
    (mkWorld
       (mkMachine (m_states (machine w))
          (od_set trigger
             (Event_add_transition
                (default (Event_init trigger) (od_get trigger (m_events (machine w))))
                (Transition_init source dest conditions))
             (m_events (machine w)))
          (m_initial (machine w)))
       (match od_get trigger (m_events (machine w)) with
        | None => <[trigger := ATrigger trigger]> (model w)
        | Some _ => model w
        end)
       (trace w)).
Proof.
  unfold Machine_add_transition, bind, the_world. simpl.
  destruct (od_get trigger (m_events (machine w))) as [e|] eqn:He.
  - unfold ret. simpl. rewrite He. destruct w as [[] ? ?]; done.
  - unfold set_events, Machine__add_trigger_to_model, setattr, bind, the_world, put_machine,
      put_model. simpl.
    rewrite od_get_set_eq. simpl. rewrite od_get_set_eq. simpl.
    by rewrite od_set_set.
Qed.


(** For a trigger name that the machine has not seen yet, [add_transition]
    sets the attribute of that name on the model to the trigger's entry
    point, whatever the model held under that name before. *)
Lemma add_transition_new_trigger trigger source dest conditions w :
  od_get trigger (m_events (machine w)) = None →
  ∃ w', Machine_add_transition trigger source dest conditions w = Ok tt w' ∧
        model w' = <[trigger := ATrigger trigger]> (model w) ∧
        trace w' = trace w.
Proof.
  intros He. eexists. split; [apply add_transition_run|]. simpl. by rewrite He.
Qed.

Lemma add_transition_known_trigger trigger source dest conditions w e :
  od_get trigger (m_events (machine w)) = Some e →
  ∃ w', Machine_add_transition trigger source dest conditions w = Ok tt w' ∧
        model w' = model w ∧
        trace w' = trace w.
Proof.
  intros He. eexists. split; [apply add_transition_run|]. simpl. by rewrite He.
Qed.


(** *** Registering states *)

Lemma add_model_to_state_run st w :
  Machine__add_model_to_state st w =
  Ok (with_convention_callbacks (with_accessor (state_name st) (model w)) st)
     (mkWorld (machine w) (with_accessor (state_name st) (model w)) (trace w)).
Proof.
  unfold Machine__add_model_to_state, with_convention_callbacks, setattr, bind, the_world,
    put_model, ret. simpl.
  destruct (is_bound_method _ ("on_enter_" +:+ state_name st)); simpl;
    destruct (is_bound_method _ ("on_exit_" +:+ state_name st)); done.
Qed.

Lemma with_convention_callbacks_name m st :
  state_name (with_convention_callbacks m st) = state_name st.
Proof.
  unfold with_convention_callbacks.
  destruct (is_bound_method m ("on_enter_" +:+ state_name st)); simpl;
    destruct (is_bound_method m _); done.
Qed.

Lemma add_state_run d oe ox w :
  let st := described d oe ox in
  let m' := with_accessor (state_name st) (model w) in
  Machine_add_state d oe ox w =
  Ok tt
    (mkWorld
       (mkMachine
          (od_set (state_name st) (with_convention_callbacks m' st) (m_states (machine w)))
          (m_events (machine w)) (m_initial (machine w)))
       m' (trace w)).
Proof.
  intros st m'. unfold Machine_add_state. fold (described d oe ox). fold st.
  unfold set_states at 1. unfold bind at 1 2. simpl. unfold bind at 1.
  rewrite add_model_to_state_run. simpl.
  unfold set_states, bind, the_world, put_machine. simpl.
  by rewrite od_set_set.
Qed.

Lemma all_named_set k st d :
  state_name st = k → all_named d → all_named (od_set k st d).
Proof.
  intros Hk. unfold all_named. induction 1 as [|[k' st'] d Hhd Hd IH]; simpl.
  - constructor; [done | constructor].
  - destruct (decide (k = k')) as [->|]; constructor; done.
Qed.

Lemma all_named_registry_ok mc : all_named (m_states mc) → registry_ok mc.
Proof.
  unfold all_named. intros Hall k s.
  induction Hall as [|[k' st'] d Hhd _ IH]; simpl; [done|].
  destruct (decide (k = k')) as [->|]; [|done]. by intros [= <-].
Qed.

Lemma od_get_set_is_Some {V} k k' (v : V) d :
  is_Some (od_get k d) → is_Some (od_get k (od_set k' v d)).
Proof.
  intros H. destruct (decide (k' = k)) as [->|Hne].
  - rewrite od_get_set_eq. eauto.
  - by rewrite od_get_set_ne.
Qed.

Lemma registered_only_refl w : registered_only w w.
Proof. repeat split; auto. Qed.

Lemma registered_only_trans w1 w2 w3 :
  registered_only w1 w2 → registered_only w2 w3 → registered_only w1 w3.
Proof.
  intros (Ht1 & He1 & Hm1 & Hn1 & Hk1) (Ht2 & He2 & Hm2 & Hn2 & Hk2).
  repeat split; [congruence | congruence | | auto | auto].
  intros k. destruct (Hm2 k) as [?|E2]; [by left|].
  destruct (Hm1 k) as [?|E1]; [by left|]. right. congruence.
Qed.

Lemma with_accessor_lookup n m k :
  (∃ n', k = "is_" +:+ n') ∨ with_accessor n m !! k = m !! k.
Proof.
  unfold with_accessor. destruct (decide ("is_" +:+ n = k)) as [<-|Hne].
  - left. eauto.
  - right. by rewrite lookup_insert_ne.
Qed.

Lemma add_state_registered_only d oe ox w :
  ∃ w', Machine_add_state d oe ox w = Ok tt w' ∧ registered_only w w' ∧
        is_Some (od_get (state_name (described d oe ox)) (m_states (machine w'))).
Proof.
  eexists. split; [apply add_state_run|]. simpl. split.
  - repeat split; simpl.
    + intros k. apply with_accessor_lookup.
    + apply all_named_set. apply with_convention_callbacks_name.
    + intros k. apply od_get_set_is_Some.
  - rewrite od_get_set_eq. eauto.
Qed.

Lemma add_states_registered_only ds w :
  ∃ w', for_each ds (fun state => Machine_add_state state CNone CNone) w = Ok tt w' ∧
        registered_only w w'.
Proof.
  revert w. induction ds as [|d ds IH]; intros w; simpl.
  - eexists. split; [done|]. apply registered_only_refl.
  - destruct (add_state_registered_only d CNone CNone w) as (w1 & H1 & R1 & _).
    destruct (IH w1) as (w2 & H2 & R2).
    exists w2. rewrite (bind_ok _ _ _ _ _ H1). split; [done|].
    by eapply registered_only_trans.
Qed.

(** The second round of binding in [__init__], over the entries [l]. *)
Lemma rebind_registered_only l w :
  all_named l →
  ∃ w',
    for_each l
      (fun '(key, state) =>
         state' <- Machine__add_model_to_state state ;;
         set_states (od_set key state')) w = Ok tt w' ∧
    registered_only w w'.
Proof.
  intros Hl. revert w. induction Hl as [|[k st] l Hk _ IH]; intros w; simpl.
  - eexists. split; [done|]. apply registered_only_refl.
  - simpl in Hk.
    set (m' := with_accessor (state_name st) (model w)).
    set (w1 := mkWorld
                 (mkMachine
                    (od_set k (with_convention_callbacks m' st) (m_states (machine w)))
                    (m_events (machine w)) (m_initial (machine w)))
                 m' (trace w)).
    assert (Hb : (state' <- Machine__add_model_to_state st ;;
                  set_states (od_set k state')) w = Ok tt w1).
    { unfold bind. by rewrite add_model_to_state_run. }
    destruct (IH w1) as (w2 & H2 & R2).
    exists w2. rewrite (bind_ok _ _ _ _ _ Hb). split; [done|].
    eapply registered_only_trans; [|exact R2].
    repeat split; simpl.
    + intros k'. apply with_accessor_lookup.
    + apply all_named_set. by rewrite with_convention_callbacks_name.
    + intros k'. apply od_get_set_is_Some.
Qed.


(** *** Machine.__init__ *)

Lemma not_accessor_state n : "state" ≠ "is_" +:+ n.
Proof. done. Qed.

Lemma not_accessor_trigger n : "trigger" ≠ "is_" +:+ n.
Proof. done. Qed.

Lemma set_initial_run initial w :
  set_initial initial w =
  Ok tt (mkWorld (mkMachine (m_states (machine w)) (m_events (machine w)) (Some initial))
           (model w) (trace w)).
Proof. done. Qed.

Lemma hasattr_run n w :
  hasattr n w = Ok (bool_decide (is_Some (model w !! n))) w.
Proof. done. Qed.

Lemma the_world_run w : the_world w = Ok w w.
Proof. done. Qed.

(** What [__init__] does once the states of the list and the initial state
    are registered. *)
Lemma init_bind_run initial w :
  all_named (m_states (machine w)) →
  is_Some (od_get initial (m_states (machine w))) →
  m_events (machine w) = [] →
  ∃ w',
    (set_initial initial ;;
     has <- hasattr "trigger" ;;
     (if has then log LWarnTrigger else setattr "trigger" AGenericTrigger) ;;
     w <- the_world ;;
     for_each (m_events (machine w))
       (fun '(trigger, _) => Machine__add_trigger_to_model trigger) ;;
     w <- the_world ;;
     for_each (m_states (machine w))
       (fun '(key, state) =>
          state' <- Machine__add_model_to_state state ;;
          set_states (od_set key state')) ;;
     Machine_set_state initial) w = Ok tt w' ∧
    trace w' = trace w ++ match model w !! "trigger" with Some _ => [LWarnTrigger] | None => [] end ∧
    model w' !! "state" = Some (str initial) ∧
    model w' !! "trigger" = Some (default AGenericTrigger (model w !! "trigger")) ∧
    is_Some (od_get initial (m_states (machine w'))) ∧
    all_named (m_states (machine w')).
Proof.
  intros Hnamed Hinit Hev.
  rewrite (bind_ok _ _ _ _ _ (set_initial_run initial w)).
  rewrite (bind_ok _ _ _ _ _ (hasattr_run "trigger" _)). simpl.
  set (mc := mkMachine (m_states (machine w)) (m_events (machine w)) (Some initial)).
  set (w3 := mkWorld mc
               (match model w !! "trigger" with
                | Some _ => model w
                | None => <["trigger" := AGenericTrigger]> (model w)
                end)
               (trace w ++ match model w !! "trigger" with
                           | Some _ => [LWarnTrigger]
                           | None => []
                           end)).
  assert (Hstep :
    (if bool_decide (is_Some (model w !! "trigger"))
     then log LWarnTrigger else setattr "trigger" AGenericTrigger)
      (mkWorld mc (model w) (trace w)) = Ok tt w3).
  { unfold w3. destruct (model w !! "trigger") as [a|] eqn:Ha.
    - rewrite bool_decide_eq_true_2 by eauto. done.
    - rewrite bool_decide_eq_false_2 by (by intros [? ?]).
      unfold setattr, bind, the_world, put_model. simpl. by rewrite app_nil_r. }
  rewrite (bind_ok _ _ _ _ _ Hstep).
  rewrite (bind_ok _ _ _ _ _ (the_world_run w3)).
  replace (m_events (machine w3)) with (@nil (string * Event)) by done.
  simpl for_each. rewrite (bind_ok _ _ w3 tt w3) by done.
  rewrite (bind_ok _ _ _ _ _ (the_world_run w3)).
  destruct (rebind_registered_only (m_states (machine w)) w3 Hnamed)
    as (w4 & H4 & Ht4 & He4 & Hm4 & Hn4 & Hk4).
  replace (m_states (machine w3)) with (m_states (machine w)) by done.
  rewrite (bind_ok _ _ _ _ _ H4).
  assert (Hinit4 : is_Some (od_get initial (m_states (machine w4)))) by (by apply Hk4).
  assert (Hnamed4 : all_named (m_states (machine w4))) by (by apply Hn4).
  destruct Hinit4 as [st Hst].
  assert (Hname : state_name st = initial) by (by apply (all_named_registry_ok _ Hnamed4)).
  rewrite (set_state_ok _ _ _ Hst), Hname.
  eexists. split; [done|]. simpl.
  split; [done|]. split; [by rewrite lookup_insert_eq|]. split; [|split; [eauto|done]].
  rewrite lookup_insert_ne by done.
  destruct (Hm4 "trigger") as [[n Hn]| ->]; [by destruct (not_accessor_trigger n)|].
  unfold w3. simpl. destruct (model w !! "trigger") as [a|] eqn:Ha; simpl.
  - done.
  - by rewrite lookup_insert_eq.
Qed.

(** [__init__] always returns.  It leaves the state of the model at the
    initial name, the generic entry point in place, the initial state in
    the registry, and it calls nothing. *)
Lemma init_run states initial w :
  ∃ w',
    Machine_init states initial w = Ok tt w' ∧
    trace w' = trace w ++ match model w !! "trigger" with
                          | Some _ => [LWarnTrigger]
                          | None => []
                          end ∧
    model w' !! "state" = Some (str initial) ∧
    model w' !! "trigger" = Some (default AGenericTrigger (model w !! "trigger")) ∧
    is_Some (od_get initial (m_states (machine w'))) ∧
    all_named (m_states (machine w')).
Proof.
  unfold Machine_init.
  set (w0 := mkWorld (mkMachine [] [] None) (model w) (trace w)).
  rewrite (bind_ok _ _ w tt w0) by done.
  destruct (add_states_registered_only states w0) as (w1 & H1 & R1).
  rewrite (bind_ok _ _ _ _ _ H1).
  rewrite (bind_ok _ _ _ _ _ (the_world_run w1)).
  assert (∃ w2,
    match od_get initial (m_states (machine w1)) with
    | Some _ => ret tt
    | None => Machine_add_state (DName initial) CNone CNone
    end w1 = Ok tt w2 ∧ registered_only w1 w2 ∧
    is_Some (od_get initial (m_states (machine w2)))) as (w2 & H2 & R2 & Hinit).
  { destruct (od_get initial (m_states (machine w1))) as [st|] eqn:Hst.
    - exists w1. split; [done|]. split; [apply registered_only_refl|]. rewrite Hst. eauto.
    - destruct (add_state_registered_only (DName initial) CNone CNone w1) as (w2 & ? & ? & ?).
      exists w2. done. }
  rewrite (bind_ok _ _ _ _ _ H2).
  destruct (registered_only_trans _ _ _ R1 R2) as (Ht & He & Hm & Hn & _).
  destruct (init_bind_run initial w2) as (w' & H' & Ht' & Hs' & Hg' & Hi' & Hn').
  { apply Hn. constructor. }
  { done. }
  { by rewrite He. }
  exists w'. split; [exact H'|].
  assert (Htrig : model w2 !! "trigger" = model w !! "trigger").
  { destruct (Hm "trigger") as [[n Hn0]|E]; [by destruct (not_accessor_trigger n)|done]. }
  rewrite Htrig in Ht', Hg'. rewrite Ht in Ht'. done.
Qed.

(** C6.  Constructing a machine always succeeds, whatever the list of
    states, the initial name and the model.  Right afterwards
    [model.state] is the initial name, the initial state is in the
    registry whether or not the list named it, and the construction
    called no guard and no enter or exit callback and entered no
    transition: the log gained at most the warning about [trigger]. *)
Theorem init_sets_initial_state_silently states initial w :
  ∃ w',
    Machine_init states initial w = Ok tt w' ∧
    model w' !! "state" = Some (str initial) ∧
    is_Some (od_get initial (m_states (machine w'))) ∧
    calls (trace w') = calls (trace w) ∧
    executions (trace w') = executions (trace w).
Proof.
  destruct (init_run states initial w) as (w' & H & Ht & Hs & _ & Hi & _).
  exists w'. split; [done|]. split; [done|]. split; [done|].
  rewrite Ht. unfold calls, executions. rewrite List.filter_app, omap_app.
  destruct (model w !! "trigger"); simpl; by rewrite !app_nil_r.
Qed.

(** C10.  For a trigger name that the machine sees for the first time,
    [add_transition] sets the attribute of that name on the model to the
    trigger's entry point whatever the model held there, and logs nothing.
    The generic [trigger] entry point alone is guarded: [__init__] leaves
    an attribute [trigger] that the model already has as it is and logs a
    warning, and installs the generic entry point only when there is
    none. *)
Theorem trigger_entry_points_overwrite_except_generic
    trigger source dest conditions w states initial w0 :
  od_get trigger (m_events (machine w)) = None →
  (∃ w', Machine_add_transition trigger source dest conditions w = Ok tt w' ∧
         model w' = <[trigger := ATrigger trigger]> (model w) ∧
         trace w' = trace w) ∧
  (∃ w0', Machine_init states initial w0 = Ok tt w0' ∧
          model w0' !! "trigger" = Some (default AGenericTrigger (model w0 !! "trigger")) ∧
          trace w0' = trace w0 ++ match model w0 !! "trigger" with
                                  | Some _ => [LWarnTrigger]
                                  | None => []
                                  end).
Proof.
  intros He. split; [by apply add_transition_new_trigger|].
  destruct (init_run states initial w0) as (w' & H & Ht & _ & Hg & _).
  exists w'. done.
Qed.


(** *** What a trigger can return *)

Lemma try_each_outcome ts args target w v w' :
  try_each user nested ts args target w = Ok v w' →
  (v = VBool true ∧
   ∃ pre t post w1,
     ts = pre ++ t :: post ∧
     rejected user nested args target pre w w1 ∧
     Transition_execute user nested t args target w1 = Ok true w') ∨
  (v = VNone ∧ rejected user nested args target ts w w').
Proof.
  revert w. induction ts as [|t ts IH]; intros w; simpl.
  - intros [= <- <-]. right. split; [done|constructor].
  - unfold bind at 1.
    destruct (Transition_execute user nested t args target w) as [[] w1|e w1] eqn:Ht; [| |done].
    + intros [= <- <-]. left. split; [done|].
      exists [], t, ts, w. split; [done|]. split; [constructor|done].
    + intros H. destruct (IH _ H) as [(-> & pre & t' & post & w2 & -> & Hrej & Hx)|[-> Hrej]].
      * left. split; [done|]. exists (t :: pre), t', post, w2.
        split; [done|]. split; [|done]. by econstructor.
      * right. split; [done|]. by econstructor.
Qed.

Lemma trigger_ok_inv self args w v w' :
  Event_trigger user nested self args w = Ok v w' →
  ∃ s state ts,
    model w !! "state" = Some (str s) ∧
    od_get s (m_states (machine w)) = Some state ∧
    event_transitions self !! state_name state = Some ts ∧
    try_each user nested ts (without_target args) (target_of args) w = Ok v w'.
Proof.
  unfold Event_trigger, Event__trigger, getattr, bind, the_world, ret, raise. simpl.
  destruct (model w !! "state") as [st|] eqn:Hst; [|done].
  unfold Machine_get_state, bind, the_world, ret, raise. simpl.
  destruct st as [[| | |s]| | | | |]; try done.
  destruct (od_get s (m_states (machine w))) as [state|] eqn:Hs; [|done].
  destruct (event_transitions self !! state_name state) as [ts|] eqn:Hts; [|done].
  intros H. by exists s, state, ts.
Qed.

(** A trigger that returns, returns [True] or [None]: no path through
    [Event._trigger] returns [False] or anything else. *)
Theorem trigger_returns_True_or_None self args w v w' :
  Event_trigger user nested self args w = Ok v w' →
  v = VBool true ∨ v = VNone.
Proof.
  intros H. destruct (trigger_ok_inv _ _ _ _ _ H) as (s & state & ts & _ & _ & _ & Ht).
  destruct (try_each_outcome _ _ _ _ _ _ Ht) as [[-> _]|[-> _]]; auto.
Qed.


(** *** A model whose state the machine does not know *)



(** *** What a trigger writes *)

Lemma try_each_frame ts args target w :
  machine (final (try_each user nested ts args target w)) = machine w.
Proof.
  revert w. induction ts as [|t ts IH]; intros w; simpl; [done|].
  unfold bind. pose proof (execute_frame t args target w) as [Hm _].
  destruct (Transition_execute user nested t args target w) as [[] w1|e w1]; simpl in *;
    [done| |done].
  by rewrite IH.
Qed.

Lemma trigger_frame self args w :
  machine (final (Event_trigger user nested self args w)) = machine w.
Proof.
  unfold Event_trigger, Event__trigger, getattr, bind, the_world, ret, raise. simpl.
  destruct (model w !! "state") as [st|]; [|done].
  pose proof (get_state_world st w) as Hw.
  destruct (Machine_get_state st w) as [state w1|e w1]; simpl in Hw; subst w1; [|done].
  destruct (event_transitions self !! state_name state) as [ts|]; [|done].
  apply try_each_frame.
Qed.

(** No trigger, whatever its outcome, adds, drops or changes a state or an
    event: the engine writes the model only. *)
Theorem trigger_keeps_registries self args w :
  machine (final (Event_trigger user nested self args w)) = machine w.
Proof. apply trigger_frame. Qed.

Lemma appended_refl P w : appended P w w.
Proof. exists []. by rewrite app_nil_r. Qed.

Lemma appended_trans P w1 w2 w3 : appended P w1 w2 → appended P w2 w3 → appended P w1 w3.
Proof.
  intros (l1 & H1 & F1) (l2 & H2 & F2). exists (l1 ++ l2).
  split; [by rewrite H2, H1, app_assoc | by apply Forall_app].
Qed.

Lemma appended_one (P : tevent → Prop) w w' e : P e → trace w' = trace w ++ [e] → appended P w w'.
Proof. intros He Ht. exists [e]. split; [done|]. by constructor. Qed.

Lemma bind_appended {A B} P (c : M A) (k : A → M B) w :
  appended P w (final (c w)) →
  (∀ v w', appended P w' (final (k v w'))) →
  appended P w (final (bind c k w)).
Proof.
  intros Hc Hk. unfold bind. destruct (c w) as [v w'|e w']; simpl in *; [|done].
  eapply appended_trans; [exact Hc | apply Hk].
Qed.


Lemma check_appended P c target w :
  (∀ st, P (GCheck (cond_func c) st)) →
  appended P w (final (Condition_check user nested c target w)).
Proof.
  intros HP. destruct (Condition_check _ _ _ _ _) as [b w'|e w'] eqn:H; simpl.
  - apply check_ok in H as [_ Ht]. by eapply appended_one.
  - apply check_raise in H as [_ [Ht|Ht]].
    + exists []. by rewrite app_nil_r.
    + by eapply appended_one.
Qed.


Lemma check_all_appended P cs target w :
  (∀ c st, P (GCheck c st)) →
  appended P w (final (check_all user nested cs target w)).
Proof.
  intros HP. revert w. induction cs as [|c cs IH]; intros w; simpl; [apply appended_refl|].
  apply bind_appended; [by apply check_appended|].
  intros [] w'; [apply IH | apply appended_refl].
Qed.






(** *** A rejected trigger *)

Lemma execute_rejected_log t args target w w' :
  Transition_execute user nested t args target w = Ok false w' →
  appended no_callback w w'.
Proof.
  rewrite execute_unfold.
  pose proof (check_all_appended no_callback (tr_conditions t) target (begun t w)) as Hall.
  destruct (check_all _ _ _ _ _) as [[] w1|e w1]; simpl in Hall; [| |done].
  - unfold bind.
    destruct (Machine_get_state _ w1) as [src w2|]; [|done].
    destruct (State_exit _ _ _ _ w2) as [? w3|]; [|done].
    destruct (Machine_set_state _ w3) as [? w4|]; [|done].
    destruct (Machine_get_state _ w4) as [dst w5|]; [|done].
    destruct (State_enter _ _ _ _ w5) as [? w6|]; done.
  - intros [= <-]. eapply (appended_trans _ _ (begun t w)).
    + by apply (appended_one _ _ _ (GExecute (tr_source t) (tr_dest t))).
    + by apply Hall.
Qed.

Lemma rejected_log args target ts w w' :
  rejected user nested args target ts w w' → appended no_callback w w'.
Proof.
  induction 1 as [|t ts w w1 w2 Ht _ IH]; [apply appended_refl|].
  eapply appended_trans; [by eapply execute_rejected_log | exact IH].
Qed.

(** A trigger that returns [None] has called no enter or exit callback and
    has written no registry: all it did was to enter candidates and check
    guards. *)
Theorem rejected_trigger_calls_no_callback self args w w' :
  Event_trigger user nested self args w = Ok VNone w' →
  appended no_callback w w' ∧ machine w' = machine w.
Proof.
  intros H. split.
  - destruct (trigger_ok_inv _ _ _ _ _ H) as (s & state & ts & _ & _ & _ & Ht).
    destruct (try_each_outcome _ _ _ _ _ _ Ht) as [[? _]|[_ Hrej]]; [done|].
    by eapply rejected_log.
  - pose proof (trigger_frame self args w) as Hm. by rewrite H in Hm.
Qed.


(** *** Condition.check *)





(** *** State.enter and State.exit *)




(** *** The registry as a dictionary *)

Lemma od_get_None_names {V} k (d : list (string * V)) :
  od_get k d = None ↔ k ∉ map fst d.
Proof.
  induction d as [|[k' v] d IH]; simpl.
  - split; [intros _; apply not_elem_of_nil | done].
  - rewrite not_elem_of_cons. destruct (decide (k = k')) as [->|Hne].
    + split; [done | intros [? _]; done].
    + rewrite IH. naive_solver.
Qed.

Lemma od_get_Some_names {V} k (d : list (string * V)) :
  is_Some (od_get k d) ↔ k ∈ map fst d.
Proof.
  destruct (od_get k d) as [v|] eqn:H.
  - split; [intros _|eauto]. destruct (decide (k ∈ map fst d)) as [|Hn]; [done|].
    apply od_get_None_names in Hn. congruence.
  - split; [by intros [? ?]|]. intros Hin. by apply od_get_None_names in H.
Qed.

Lemma od_set_names {V} k (v : V) d :
  map fst (od_set k v d) =
  match od_get k d with
  | Some _ => map fst d
  | None => map fst d ++ [k]
  end.
Proof.
  induction d as [|[k' v'] d IH]; simpl; [done|].
  destruct (decide (k = k')) as [->|Hne]; simpl; [done|].
  rewrite IH. by destruct (od_get k d).
Qed.

Lemma od_get_elem_of {V} k (v : V) d :
  NoDup (map fst d) → (k, v) ∈ d → od_get k d = Some v.
Proof.
  induction d as [|[k' v'] d IH]; simpl; [by intros _ ?%elem_of_nil|].
  intros [Hk Hd]%NoDup_cons [[= -> ->]|Hin]%elem_of_cons.
  - by rewrite decide_True.
  - rewrite decide_False; [by apply IH|].
    intros ->. apply Hk. by apply (list_elem_of_fmap_2 fst d (k', v)).
Qed.

Lemma od_set_NoDup {V} k (v : V) d :
  NoDup (map fst d) → NoDup (map fst (od_set k v d)).
Proof.
  intros Hd. rewrite od_set_names. destruct (od_get k d) eqn:H; [done|].
  apply NoDup_app. split; [done|]. split; [|apply NoDup_singleton].
  intros x Hx ->%list_elem_of_singleton. by apply od_get_None_names in H.
Qed.

(** *** Machine.add_state *)

Lemma add_state_registered d oe ox w :
  Machine_add_state d oe ox w = Ok tt (registered d oe ox w).
Proof. apply add_state_run. Qed.



(** *** Machine.__init__, step by step *)

Lemma for_each_total {A} (l : list A) (body : A → M unit) (f : A → World → World) w :
  (∀ x w, body x w = Ok tt (f x w)) →
  for_each l body w = Ok tt (foldl (fun w x => f x w) w l).
Proof.
  intros Hb. revert w. induction l as [|x l IH]; intros w; simpl; [done|].
  by rewrite (bind_ok _ _ _ _ _ (Hb x w)).
Qed.

Lemma foldl_inv {A} (I : World → Prop) (f : A → World → World) l w :
  (∀ x w, x ∈ l → I w → I (f x w)) → I w → I (foldl (fun w x => f x w) w l).
Proof.
  revert w. induction l as [|x l IH]; intros w Hf Hw; simpl; [done|].
  apply IH.
  - intros y w' Hy. apply Hf. by right.
  - apply Hf; [by left | done].
Qed.

Lemma rebind_body_run p w :
  (let '(key, state) := p in
   state' <- Machine__add_model_to_state state ;;
   set_states (od_set key state')) w = Ok tt (rebound p w).
Proof. destruct p as [k st]. unfold bind. by rewrite add_model_to_state_run. Qed.

Lemma registered_all_named d oe ox w :
  all_named (m_states (machine w)) →
  all_named (m_states (machine (registered d oe ox w))).
Proof. intros H. simpl. apply all_named_set; [|done]. apply with_convention_callbacks_name. Qed.

Lemma rebound_all_named p w :
  state_name p.2 = p.1 →
  all_named (m_states (machine w)) →
  all_named (m_states (machine (rebound p w))).
Proof.
  intros Hp H. simpl. apply all_named_set; [|done].
  by rewrite with_convention_callbacks_name.
Qed.

Lemma all_named_elem_of d p : all_named d → p ∈ d → state_name p.2 = p.1.
Proof. unfold all_named. rewrite Forall_forall. auto. Qed.

(** The worlds between the steps of [__init__]. *)
Lemma init_stages states initial w :
  let w0 := mkWorld (mkMachine [] [] None) (model w) (trace w) in
  let w1 := foldl (fun w d => registered d CNone CNone w) w0 states in
  let w2 :=
    match od_get initial (m_states (machine w1)) with
    | None => registered (DName initial) CNone CNone w1
    | Some _ => w1
    end in
  let w3 := with_generic_trigger initial w2 in
  let w4 := foldl (fun w p => rebound p w) w3 (m_states (machine w3)) in
  m_events (machine w2) = [] ∧
  all_named (m_states (machine w2)) ∧
  is_Some (od_get initial (m_states (machine w2))) ∧
  all_named (m_states (machine w4)) ∧
  is_Some (od_get initial (m_states (machine w4))).
Proof.
  intros w0 w1 w2 w3 w4.
  assert (H1 : m_events (machine w1) = [] ∧ all_named (m_states (machine w1))).
  { unfold w1. apply (foldl_inv (fun w => m_events (machine w) = [] ∧
                                           all_named (m_states (machine w)))).
    - intros d w' _ [He Hn]. split; [done | by apply registered_all_named].
    - split; [done | constructor]. }
  destruct H1 as [He1 Hn1].
  assert (H2 : m_events (machine w2) = [] ∧ all_named (m_states (machine w2)) ∧
               is_Some (od_get initial (m_states (machine w2)))).
  { unfold w2. destruct (od_get initial (m_states (machine w1))) as [st|] eqn:Hi.
    - rewrite Hi. eauto.
    - split; [done|]. split; [by apply registered_all_named|].
      simpl. rewrite od_get_set_eq. eauto. }
  destruct H2 as (He2 & Hn2 & Hi2).
  split; [done|]. split; [done|]. split; [done|].
  unfold w4.
  apply (foldl_inv (fun w => all_named (m_states (machine w)) ∧
                             is_Some (od_get initial (m_states (machine w))))).
  - intros p w' Hp [Hn Hi]. split.
    + apply rebound_all_named; [|done]. by apply (all_named_elem_of _ _ Hn2).
    + simpl. by apply od_get_set_is_Some.
  - done.
Qed.

(** [__init__] leaves the world [constructed]. *)
Lemma init_constructed states initial w :
  Machine_init states initial w = Ok tt (constructed states initial w).
Proof.
  destruct (init_stages states initial w) as (He2 & Hn2 & Hi2 & Hn4 & [st Hst]).
  unfold Machine_init, constructed.
  set (w0 := mkWorld (mkMachine [] [] None) (model w) (trace w)) in *.
  set (w1 := foldl (fun w d => registered d CNone CNone w) w0 states) in *.
  set (w2 := match od_get initial (m_states (machine w1)) with
             | None => registered (DName initial) CNone CNone w1
             | Some _ => w1
             end) in *.
  set (w3 := with_generic_trigger initial w2) in *.
  set (w4 := foldl (fun w p => rebound p w) w3 (m_states (machine w3))) in *.
  rewrite (bind_ok _ _ w tt w0) by done.
  rewrite (bind_ok _ _ w0 tt w1)
    by (apply for_each_total; intros d w'; apply add_state_registered).
  rewrite (bind_ok _ _ _ _ _ (the_world_run w1)).
  assert (H2 : match od_get initial (m_states (machine w1)) with
               | Some _ => ret tt
               | None => Machine_add_state (DName initial) CNone CNone
               end w1 = Ok tt w2).
  { unfold w2. destruct (od_get initial (m_states (machine w1))); [done|].
    apply add_state_registered. }
  rewrite (bind_ok _ _ _ _ _ H2).
  rewrite (bind_ok _ _ _ _ _ (set_initial_run initial w2)).
  rewrite (bind_ok _ _ _ _ _ (hasattr_run "trigger" _)). simpl model.
  assert (H3 : (if bool_decide (is_Some (model w2 !! "trigger"))
                then log LWarnTrigger else setattr "trigger" AGenericTrigger)
                 (mkWorld (mkMachine (m_states (machine w2)) (m_events (machine w2))
                             (Some initial)) (model w2) (trace w2)) = Ok tt w3).
  { unfold w3, with_generic_trigger. destruct (model w2 !! "trigger") as [a|] eqn:Ha.
    - rewrite bool_decide_eq_true_2 by eauto. done.
    - rewrite bool_decide_eq_false_2 by (by intros [? ?]).
      unfold setattr, bind, the_world, put_model. simpl. by rewrite app_nil_r. }
  rewrite (bind_ok _ _ _ _ _ H3).
  rewrite (bind_ok _ _ _ _ _ (the_world_run w3)).
  replace (m_events (machine w3)) with (@nil (string * Event)) by (by rewrite <- He2).
  simpl for_each. rewrite (bind_ok _ _ w3 tt w3) by done.
  rewrite (bind_ok _ _ _ _ _ (the_world_run w3)).
  rewrite (bind_ok _ _ w3 tt w4)
    by (apply for_each_total; intros p w'; apply rebind_body_run).
  rewrite (set_state_ok _ _ _ Hst).
  by rewrite (all_named_registry_ok _ Hn4 _ _ Hst).
Qed.


(** *** What the construction registers *)

Lemma registered_names_elem d oe ox w n :
  n ∈ state_names (registered d oe ox w) ↔
  n ∈ state_names w ∨ n = state_name (described d oe ox).
Proof.
  unfold state_names. simpl. rewrite od_set_names.
  destruct (od_get _ (m_states (machine w))) eqn:Hk.
  - split; [auto|]. intros [?| ->]; [done|]. apply od_get_Some_names. eauto.
  - rewrite elem_of_app, list_elem_of_singleton. done.
Qed.

Lemma foldl_registered_names ds w n :
  n ∈ state_names (foldl (fun w d => registered d CNone CNone w) w ds) ↔
  n ∈ state_names w ∨ n ∈ map descriptor_name ds.
Proof.
  revert w. induction ds as [|d ds IH]; intros w; simpl.
  - split; [auto|]. intros [?|?%elem_of_nil]; done.
  - rewrite IH, registered_names_elem, elem_of_cons. unfold descriptor_name. naive_solver.
Qed.

Lemma foldl_registered_NoDup ds w :
  NoDup (state_names w) →
  NoDup (state_names (foldl (fun w d => registered d CNone CNone w) w ds)).
Proof.
  apply (foldl_inv (fun w => NoDup (state_names w))).
  intros d w' _ H. unfold state_names. simpl. by apply od_set_NoDup.
Qed.

Lemma rebound_names p w :
  p.1 ∈ state_names w → state_names (rebound p w) = state_names w.
Proof.
  intros Hp. unfold state_names. simpl. rewrite od_set_names.
  apply od_get_Some_names in Hp as [v ->]. done.
Qed.

Lemma foldl_rebound_names l w :
  (∀ p, p ∈ l → p.1 ∈ state_names w) →
  state_names (foldl (fun w p => rebound p w) w l) = state_names w.
Proof.
  intros Hl.
  apply (foldl_inv (fun w' => state_names w' = state_names w)); [|done].
  intros p w' Hp Hw. rewrite rebound_names; [done|]. rewrite Hw. by apply Hl.
Qed.

Lemma constructed_names states initial w :
  let w0 := mkWorld (mkMachine [] [] None) (model w) (trace w) in
  let w1 := foldl (fun w d => registered d CNone CNone w) w0 states in
  let w2 :=
    match od_get initial (m_states (machine w1)) with
    | None => registered (DName initial) CNone CNone w1
    | Some _ => w1
    end in
  state_names (constructed states initial w) = state_names w2 ∧
  NoDup (state_names w2) ∧
  ∀ n, n ∈ state_names w2 ↔ n = initial ∨ n ∈ map descriptor_name states.
Proof.
  intros w0 w1 w2.
  assert (Hnd1 : NoDup (state_names w1)).
  { apply foldl_registered_NoDup. constructor. }
  assert (Hel1 : ∀ n, n ∈ state_names w1 ↔ n ∈ map descriptor_name states).
  { intros n. unfold w1. rewrite foldl_registered_names. unfold state_names at 1. simpl.
    split; [intros [?%elem_of_nil|?]; done | auto]. }
  split; [|split].
  - unfold constructed. fold w0 w1 w2.
    change (state_names (moved initial ?x)) with (state_names x).
    rewrite foldl_rebound_names; [done|].
    intros p Hp. apply (list_elem_of_fmap_2 fst) in Hp. exact Hp.
  - unfold w2. destruct (od_get initial (m_states (machine w1))); [done|].
    unfold state_names. simpl. by apply od_set_NoDup.
  - intros n. unfold w2. destruct (od_get initial (m_states (machine w1))) as [st|] eqn:Hi.
    + rewrite Hel1. split; [auto|]. intros [->|?]; [|done].
      apply Hel1. apply od_get_Some_names. eauto.
    + rewrite registered_names_elem, Hel1. simpl. naive_solver.
Qed.

(** The construction registers the states of the list and the initial
    state and nothing else, each once however often the list names it;
    [get_state] then succeeds for exactly these names, and returns a state
    of the name it was asked for. *)
Theorem construction_registers_declared_names states initial w :
  ∃ w',
    Machine_init states initial w = Ok tt w' ∧
    NoDup (state_names w') ∧
    (∀ n, n ∈ state_names w' ↔ n = initial ∨ n ∈ map descriptor_name states) ∧
    (∀ n, n ∈ state_names w' →
          ∃ st, Machine_get_state (str n) w' = Ok st w' ∧ state_name st = n) ∧
    (∀ n, n ∉ state_names w' →
          Machine_get_state (str n) w' = Raise (ValueError (str n)) w').
Proof.
  exists (constructed states initial w). split; [apply init_constructed|].
  destruct (constructed_names states initial w) as (Hn & Hnd & Hel).
  destruct (init_stages states initial w) as (_ & _ & _ & Hnamed & _).
  rewrite Hn. split; [done|]. split; [done|]. rewrite <- Hn. split.
  - intros n [st Hst]%od_get_Some_names. exists st.
    split; [by apply get_state_ok|]. by apply (all_named_registry_ok _ Hnamed).
  - intros n Hout%od_get_None_names. by apply get_state_unregistered.
Qed.


(** *** The accessors *)

Lemma with_accessor_other n k m :
  n ≠ k → with_accessor n m !! ("is_" +:+ k) = m !! ("is_" +:+ k).
Proof.
  intros Hne. unfold with_accessor. apply lookup_insert_ne.
  intros [= H]. exact (Hne H).
Qed.

Lemma with_accessor_self n m : with_accessor n m !! ("is_" +:+ n) = Some (AIsState n).
Proof. apply lookup_insert_eq. Qed.

Lemma registered_accessors d oe ox w :
  accessors_ok w → accessors_ok (registered d oe ox w).
Proof.
  intros H k Hk. simpl in *.
  destruct (decide (state_name (described d oe ox) = k)) as [<-|Hne].
  - apply with_accessor_self.
  - rewrite od_get_set_ne in Hk by done. rewrite with_accessor_other by done. by apply H.
Qed.

Lemma rebound_accessors p w :
  p.1 ∈ state_names w → accessors_ok w → accessors_ok (rebound p w).
Proof.
  intros Hp H k Hk. simpl in *.
  assert (Hk' : is_Some (od_get k (m_states (machine w)))).
  { destruct (decide (p.1 = k)) as [<-|Hne].
    - by apply od_get_Some_names.
    - by rewrite od_get_set_ne in Hk. }
  destruct (decide (state_name p.2 = k)) as [<-|Hne].
  - apply with_accessor_self.
  - rewrite with_accessor_other by done. by apply H.
Qed.

Lemma constructed_accessors states initial w :
  accessors_ok (constructed states initial w).
Proof.
  unfold constructed.
  set (w0 := mkWorld (mkMachine [] [] None) (model w) (trace w)).
  set (w1 := foldl (fun w d => registered d CNone CNone w) w0 states).
  set (w2 := match od_get initial (m_states (machine w1)) with
             | None => registered (DName initial) CNone CNone w1
             | Some _ => w1
             end).
  set (w3 := with_generic_trigger initial w2).
  assert (H1 : accessors_ok w1).
  { apply (foldl_inv accessors_ok).
    - intros d w' _. apply registered_accessors.
    - by intros k [? ?]. }
  assert (H2 : accessors_ok w2).
  { unfold w2. destruct (od_get initial (m_states (machine w1))); [done|].
    by apply registered_accessors. }
  assert (H3 : accessors_ok w3).
  { intros k Hk. unfold w3, with_generic_trigger. simpl.
    destruct (model w2 !! "trigger"); [by apply H2|].
    rewrite lookup_insert_ne by done. by apply H2. }
  assert (H4 : state_names (foldl (fun w p => rebound p w) w3 (m_states (machine w3)))
               = state_names w3 ∧
               accessors_ok (foldl (fun w p => rebound p w) w3 (m_states (machine w3)))).
  { apply (foldl_inv (fun w' => state_names w' = state_names w3 ∧ accessors_ok w')).
    - intros p w' Hp [Hn Ha].
      assert (Hin : p.1 ∈ state_names w').
      { rewrite Hn. by apply (list_elem_of_fmap_2 fst). }
      split; [by rewrite rebound_names | by apply rebound_accessors].
    - done. }
  destruct H4 as [_ H4].
  intros k Hk. simpl in *. rewrite lookup_insert_ne by done. by apply H4.
Qed.

(** After the construction every registered state has its accessor
    [is_<name>] on the model, and calling it tells whether the state is
    the current one: it returns [True] for the initial state and [False]
    for every other, and leaves the world alone. *)
Theorem accessors_after_construction states initial w :
  ∃ w',
    Machine_init states initial w = Ok tt w' ∧
    ∀ n, n ∈ state_names w' →
         model w' !! ("is_" +:+ n) = Some (AIsState n) ∧
         invoke user nested ("is_" +:+ n) no_args w' =
           Ok (VBool (bool_decide (n = initial))) w'.
Proof.
  exists (constructed states initial w). split; [apply init_constructed|].
  intros n Hn%od_get_Some_names.
  pose proof (constructed_accessors states initial w n Hn) as Ha.
  split; [done|].
  assert (Hg : getattr ("is_" +:+ n) (constructed states initial w)
               = Ok (AIsState n) (constructed states initial w)).
  { unfold getattr, bind, the_world. cbv beta iota. by rewrite Ha. }
  unfold invoke. rewrite (bind_ok _ _ _ _ _ Hg).
  unfold call_top, call_attr. change (is_no_args no_args) with true. cbv iota.
  assert (Hs : getattr "state" (constructed states initial w)
               = Ok (str initial) (constructed states initial w)).
  { unfold getattr, bind, the_world. simpl. by rewrite lookup_insert_eq. }
  unfold Machine_is_state. rewrite (bind_ok _ _ _ _ _ Hs). unfold ret.
  f_equal. f_equal. apply bool_decide_ext. unfold str.
  split; [by intros [= ->] | by intros ->].
Qed.


(** *** The second binding of [__init__] *)

Lemma same_conventions_refl m : same_conventions m m.
Proof. by intros k. Qed.

Lemma same_conventions_trans m1 m2 m3 :
  same_conventions m1 m2 → same_conventions m2 m3 → same_conventions m1 m3.
Proof.
  intros H1 H2 k. destruct (H1 k) as [? ?], (H2 k) as [? ?]. split; congruence.
Qed.

Lemma with_accessor_conventions n m : same_conventions m (with_accessor n m).
Proof.
  intros k. unfold is_bound_method, with_accessor.
  rewrite !lookup_insert_ne by done. done.
Qed.

Lemma with_generic_trigger_conventions initial w :
  same_conventions (model w) (model (with_generic_trigger initial w)).
Proof.
  unfold with_generic_trigger. simpl. destruct (model w !! "trigger"); [by intros k|].
  intros k. unfold is_bound_method. rewrite !lookup_insert_ne by done. done.
Qed.

Lemma copies_succ b c n : copies b c n ++ copies b c 1 = copies b c (S n).
Proof. destruct b; simpl; [|done]. by rewrite <- repeat_cons. Qed.

Lemma with_convention_lists m st :
  state_on_enter (with_convention_callbacks m st) =
    state_on_enter st
    ++ copies (is_bound_method m ("on_enter_" +:+ state_name st))
         (enter_convention (state_name st)) 1 ∧
  state_on_exit (with_convention_callbacks m st) =
    state_on_exit st
    ++ copies (is_bound_method m ("on_exit_" +:+ state_name st))
         (exit_convention (state_name st)) 1.
Proof.
  unfold with_convention_callbacks.
  destruct (is_bound_method m ("on_enter_" +:+ state_name st)); simpl;
    destruct (is_bound_method m ("on_exit_" +:+ state_name st)); simpl;
    rewrite ?app_nil_r; done.
Qed.

Lemma od_get_elem {V} k (v : V) d : od_get k d = Some v → (k, v) ∈ d.
Proof.
  induction d as [|[k' v'] d IH]; simpl; [done|].
  destruct (decide (k = k')) as [->|Hne].
  - intros [= ->]. by left.
  - intros H. right. by apply IH.
Qed.

(** A state bound once more has one more copy of its convention
    callbacks. *)
Lemma bound_from_once_more ds n m m' k st :
  same_conventions m m' →
  state_name st = k →
  bound_from ds n m k st →
  bound_from ds (S n) m k (with_convention_callbacks m' st).
Proof.
  intros Hs Hk (d & Hd & Hdn & He & Hx). exists d. split; [done|]. split; [done|].
  destruct (with_convention_lists m' st) as [He' Hx']. destruct (Hs k) as [Hbe Hbx].
  rewrite He', Hx', He, Hx, Hk, Hbe, Hbx, <- !app_assoc, !copies_succ. done.
Qed.

Lemma bound_from_first ds m m' d :
  same_conventions m m' →
  d ∈ ds →
  bound_from ds 1 m (state_name (described d CNone CNone))
    (with_convention_callbacks m' (described d CNone CNone)).
Proof.
  intros Hs Hd. exists d. split; [done|]. split; [done|].
  destruct (with_convention_lists m' (described d CNone CNone)) as [He' Hx'].
  destruct (Hs (state_name (described d CNone CNone))) as [Hbe Hbx].
  by rewrite He', Hx', Hbe, Hbx.
Qed.

(** The registry after the second binding loop over the entries [l]. *)
Lemma foldl_rebound_lookup l w :
  NoDup (map fst l) →
  let w' := foldl (fun w p => rebound p w) w l in
  same_conventions (model w) (model w') ∧
  (∀ k, k ∉ map fst l → od_get k (m_states (machine w')) = od_get k (m_states (machine w))) ∧
  (∀ k st, (k, st) ∈ l →
           ∃ m', same_conventions (model w) m' ∧
                 od_get k (m_states (machine w')) = Some (with_convention_callbacks m' st)).
Proof.
  revert w. induction l as [|[k0 st0] l IH]; intros w Hnd; simpl.
  - split; [apply same_conventions_refl|]. split; [done|]. by intros k st ?%elem_of_nil.
  - apply NoDup_cons in Hnd as [Hk0 Hnd].
    destruct (IH (rebound (k0, st0) w) Hnd) as (Hs & Hout & Hin).
    assert (Hs1 : same_conventions (model w) (model (rebound (k0, st0) w)))
      by apply with_accessor_conventions.
    split; [by eapply same_conventions_trans|]. split.
    + intros k Hk. apply not_elem_of_cons in Hk as [Hne Hk].
      rewrite (Hout k Hk). simpl. by rewrite od_get_set_ne.
    + intros k st [[= -> ->]|Hl]%elem_of_cons.
      * exists (with_accessor (state_name st0) (model w)). split; [done|].
        rewrite (Hout k0 Hk0). simpl. apply od_get_set_eq.
      * destruct (Hin k st Hl) as (m' & Hm' & Hget). exists m'.
        split; [by eapply same_conventions_trans | done].
Qed.

Lemma constructed_bound states initial w k st :
  od_get k (m_states (machine (constructed states initial w))) = Some st →
  bound_from (states ++ [DName initial]) 2 (model w) k st.
Proof.
  unfold constructed.
  set (ds := states ++ [DName initial]).
  set (w0 := mkWorld (mkMachine [] [] None) (model w) (trace w)).
  set (w1 := foldl (fun w d => registered d CNone CNone w) w0 states).
  set (w2 := match od_get initial (m_states (machine w1)) with
             | None => registered (DName initial) CNone CNone w1
             | Some _ => w1
             end).
  set (w3 := with_generic_trigger initial w2).
  set (K := fun w' : World =>
              same_conventions (model w) (model w') ∧
              NoDup (state_names w') ∧
              all_named (m_states (machine w')) ∧
              ∀ k st, od_get k (m_states (machine w')) = Some st →
                      bound_from ds 1 (model w) k st).
  assert (Hstep : ∀ d w', d ∈ ds → K w' → K (registered d CNone CNone w')).
  { intros d w' Hd (Hs & Hnd & Hnamed & Hb).
    assert (Hs' : same_conventions (model w) (model (registered d CNone CNone w')))
      by (eapply same_conventions_trans; [exact Hs | apply with_accessor_conventions]).
    split; [done|]. split; [by apply od_set_NoDup|].
    split; [by apply registered_all_named|].
    intros k' st'. simpl.
    destruct (decide (state_name (described d CNone CNone) = k')) as [<-|Hne].
    - rewrite od_get_set_eq. intros [= <-]. by apply bound_from_first.
    - rewrite od_get_set_ne by done. apply Hb. }
  assert (H1 : K w1).
  { apply (foldl_inv K).
    - intros d w' Hd. apply Hstep. unfold ds. apply elem_of_app. by left.
    - split; [apply same_conventions_refl|]. split; [constructor|].
      split; [constructor|]. done. }
  assert (H2 : K w2).
  { unfold w2. destruct (od_get initial (m_states (machine w1))); [done|].
    apply Hstep; [|done]. unfold ds. apply elem_of_app. right. by left. }
  destruct H2 as (Hs2 & Hnd2 & Hnamed2 & Hb2).
  destruct (foldl_rebound_lookup (m_states (machine w3)) w3 Hnd2) as (_ & _ & Hin).
  change (m_states (machine (moved initial ?x))) with (m_states (machine x)).
  intros Hget.
  assert (Hk : k ∈ state_names w3).
  { rewrite <- (foldl_rebound_names (m_states (machine w3)) w3).
    - apply od_get_Some_names. eauto.
    - intros p Hp. by apply (list_elem_of_fmap_2 fst). }
  apply od_get_Some_names in Hk as [st1 Hst1].
  destruct (Hin k st1 (od_get_elem _ _ _ Hst1)) as (m' & Hm' & Hget').
  rewrite Hget in Hget'. injection Hget' as ->.
  apply bound_from_once_more.
  - eapply same_conventions_trans; [exact Hs2|].
    eapply same_conventions_trans; [apply with_generic_trigger_conventions | exact Hm'].
  - by apply (all_named_registry_ok _ Hnamed2).
  - by apply Hb2.
Qed.



(** *** Machine.get_triggers *)

Lemma has_transition_from_spec states e :
  has_transition_from states e = true ↔
  ∃ s, s ∈ states ∧ is_Some (event_transitions e !! s).
Proof.
  unfold has_transition_from. rewrite existsb_exists. split.
  - intros (s & Hs & Hb). exists s. split; [by apply list_elem_of_In|].
    by apply bool_decide_eq_true in Hb.
  - intros (s & Hs & Hb). exists s. split; [by apply list_elem_of_In|].
    by apply bool_decide_eq_true.
Qed.

Lemma has_transition_from_add states e tr :
  has_transition_from states (Event_add_transition e tr) = true ↔
  tr_source tr ∈ states ∨ has_transition_from states e = true.
Proof.
  rewrite !has_transition_from_spec. split.
  - intros (s & Hs & Hl). rewrite add_transition_lookup in Hl.
    destruct (decide (tr_source tr = s)) as [->|]; [by left|]. right. eauto.
  - intros [Hs|(s & Hs & Hl)].
    + exists (tr_source tr). split; [done|]. rewrite add_transition_lookup, decide_True by done.
      eauto.
    + exists s. split; [done|]. rewrite add_transition_lookup.
      destruct (decide (tr_source tr = s)); [eauto|done].
Qed.

Lemma has_transition_from_init states t : has_transition_from states (Event_init t) = false.
Proof.
  apply not_true_is_false. rewrite has_transition_from_spec.
  intros (s & _ & Hl). simpl in Hl. rewrite lookup_empty in Hl. by destruct Hl.
Qed.

Lemma triggers_after_set states t tr d t' :
  t' ∈ map fst (List.filter (fun p => has_transition_from states p.2)
                  (od_set t (Event_add_transition (default (Event_init t) (od_get t d)) tr) d)) ↔
  (t' = t ∧ tr_source tr ∈ states) ∨
  t' ∈ map fst (List.filter (fun p => has_transition_from states p.2) d).
Proof.
  induction d as [|[k e] d IH]; simpl.
  - destruct (has_transition_from states (Event_add_transition (Event_init t) tr)) eqn:Hb; simpl.
    + apply has_transition_from_add in Hb as [Hb|Hb];
        [|by rewrite has_transition_from_init in Hb].
      rewrite list_elem_of_singleton. split; [auto|]. intros [[? _]|?%elem_of_nil]; done.
    + split; [by intros ?%elem_of_nil|]. intros [[_ Hs]|?%elem_of_nil]; [|done].
      assert (has_transition_from states (Event_add_transition (Event_init t) tr) = true)
        by (apply has_transition_from_add; auto). congruence.
  - destruct (decide (t = k)) as [->|Hne]; simpl.
    + destruct (has_transition_from states (Event_add_transition e tr)) eqn:Hb;
        destruct (has_transition_from states e) eqn:He; simpl; rewrite ?elem_of_cons.
      * split; [auto|]. intros [[? _]|[?|?]]; auto.
      * apply has_transition_from_add in Hb as [Hb|Hb]; [|congruence]. split; [|tauto].
        intros [?|?]; auto.
      * assert (has_transition_from states (Event_add_transition e tr) = true)
          by (apply has_transition_from_add; auto). congruence.
      * split; [auto|]. intros [[_ Hs]|?]; [|done].
        assert (has_transition_from states (Event_add_transition e tr) = true)
          by (apply has_transition_from_add; auto). congruence.
    + destruct (has_transition_from states e) eqn:He; simpl; rewrite ?elem_of_cons, IH; tauto.
Qed.

Lemma get_triggers_run states w :
  Machine_get_triggers states w = Ok (triggers_from states w) w.
Proof. done. Qed.

(** [get_triggers] names a trigger when one of its transitions leaves one
    of the states asked for, destinations do not count.  Declaring a
    transition [trigger: source -> dest] makes [get_triggers] name the
    trigger for every list of states that holds the source, and changes
    its answer for nothing else; with no state asked for it names
    nothing. *)
Theorem get_triggers_follows_declarations trigger source dest conditions states w :
  ∃ w',
    Machine_add_transition trigger source dest conditions w = Ok tt w' ∧
    Machine_get_triggers states w = Ok (triggers_from states w) w ∧
    Machine_get_triggers states w' = Ok (triggers_from states w') w' ∧
    (∀ t, t ∈ triggers_from states w' ↔
          (t = trigger ∧ source ∈ states) ∨ t ∈ triggers_from states w) ∧
    triggers_from [] w' = [].
Proof.
  eexists. split; [apply add_transition_run|]. split; [done|]. split; [done|]. split.
  - intros t. unfold triggers_from. simpl. apply triggers_after_set.
  - unfold triggers_from. simpl.
    induction (od_set _ _ _) as [|p l IH]; simpl; done.
Qed.


(** *** What every machine keeps *)

Lemma Forall_od_set {V} (P : string * V → Prop) k v d :
  P (k, v) → Forall P d → Forall P (od_set k v d).
Proof.
  intros Hv. induction 1 as [|[k' v'] d Hhd Hd IH]; simpl.
  - by constructor.
  - destruct (decide (k = k')); constructor; done.
Qed.

Lemma event_ok_init t : event_ok t (Event_init t).
Proof. split; [done|]. intros k ts. simpl. by rewrite lookup_empty. Qed.

Lemma event_ok_add t e source dest conditions :
  event_ok t e →
  event_ok t (Event_add_transition e (Transition_init source dest conditions)).
Proof.
  intros [Hn Hl]. split; [done|]. intros k ts. rewrite add_transition_lookup. simpl.
  destruct (decide (source = k)) as [->|Hne]; [|apply Hl].
  intros [= <-]. split; [by destruct (default [] _)|].
  apply Forall_app. split; [|by constructor].
  destruct (event_transitions e !! k) as [ts|] eqn:Hk; simpl; [|constructor].
  by apply (Hl k ts).
Qed.

Lemma well_formed_event mc t e :
  well_formed mc → od_get t (m_events mc) = Some e → event_ok t e.
Proof.
  intros (_ & _ & _ & He) Hget. apply od_get_elem in Hget.
  rewrite Forall_forall in He. by apply (He (t, e)).
Qed.

Lemma constructed_events states initial w :
  m_events (machine (constructed states initial w)) = [].
Proof.
  destruct (init_stages states initial w) as (He2 & _).
  unfold constructed. simpl.
  apply (foldl_inv (fun w' => m_events (machine w') = [])); [by intros p w' _|].
  exact He2.
Qed.

Lemma constructed_well_formed states initial w :
  well_formed (machine (constructed states initial w)).
Proof.
  destruct (constructed_names states initial w) as (Hn & Hnd & _).
  destruct (init_stages states initial w) as (_ & _ & _ & Hnamed & _).
  split; [|split; [exact Hnamed|]].
  - change (NoDup (state_names (constructed states initial w))). by rewrite Hn.
  - rewrite constructed_events. split; constructor.
Qed.

(** Every machine that the constructor made keeps, through every later
    [add_state], [add_transition] and trigger, what the constructor
    established: no state and no trigger is registered twice, every state
    and every event is filed under its own name, and every list of
    transitions is non-empty and holds transitions that leave the state
    it is filed under. *)
Theorem machine_stays_well_formed w :
  well_formed (machine w) →
  (∀ states initial,
     ∃ w', Machine_init states initial w = Ok tt w' ∧ well_formed (machine w')) ∧
  (∀ d on_enter on_exit,
     well_formed (machine (final (Machine_add_state d on_enter on_exit w)))) ∧
  (∀ trigger source dest conditions,
     well_formed (machine (final (Machine_add_transition trigger source dest conditions w)))) ∧
  (∀ self args,
     well_formed (machine (final (Event_trigger user nested self args w)))).
Proof.
  intros (Hnd & Hnamed & Hne & Hev). split; [|split; [|split]].
  - intros states initial. exists (constructed states initial w).
    split; [apply init_constructed | apply constructed_well_formed].
  - intros d oe ox. rewrite add_state_registered. simpl.
    split; [by apply od_set_NoDup|]. split; [|done].
    apply all_named_set; [apply with_convention_callbacks_name | done].
  - intros t s d c. rewrite add_transition_run. simpl.
    split; [done|]. split; [done|]. split; [by apply od_set_NoDup|].
    apply Forall_od_set; [|done]. simpl. apply event_ok_add.
    destruct (od_get t (m_events (machine w))) as [e|] eqn:Hget; simpl.
    + by apply (well_formed_event (machine w)).
    + apply event_ok_init.
  - intros self args. by rewrite trigger_frame.
Qed.

(** In such a machine a trigger that returns has tried at least one
    candidate, and every candidate it tried leaves the state the model was
    in: a transition filed for another state is never executed, and a
    [None] means that a guard did reject, not that there was nothing to
    try. *)
Theorem trigger_tries_candidates_of_current_state t self args w s v w' :
  well_formed (machine w) →
  od_get t (m_events (machine w)) = Some self →
  model w !! "state" = Some (str s) →
  Event_trigger user nested self args w = Ok v w' →
  ∃ dests,
    dests ≠ [] ∧
    executions (trace w') = executions (trace w) ++ map (fun d => (s, d)) dests.
Proof.
  intros Hwf Hself Hst Hrun.
  destruct (trigger_ok_inv _ _ _ _ _ Hrun) as (s' & state & ts & Hst' & Hs & Hts & Htry).
  rewrite Hst in Hst'. injection Hst' as <-.
  assert (Hname : state_name state = s).
  { destruct Hwf as (_ & Hnamed & _). by apply (all_named_registry_ok _ Hnamed). }
  rewrite Hname in Hts.
  destruct (well_formed_event _ _ _ Hwf Hself) as [_ Hl].
  destruct (Hl s ts Hts) as [Hnil Hsrc].
  assert (Hmap : ∀ l, Forall (fun tr => tr_source tr = s) l →
                      map (fun t => (tr_source t, tr_dest t)) l
                      = map (fun d => (s, d)) (map tr_dest l)).
  { induction 1 as [|tr l Htr _ IH]; simpl; [done|]. by rewrite Htr, IH. }
  destruct (try_each_outcome _ _ _ _ _ _ Htry)
    as [(_ & pre & t0 & post & w1 & -> & Hrej & Hx)|[_ Hrej]].
  - exists (map tr_dest (pre ++ [t0])). split; [by destruct pre|].
    destruct (rejected_frame _ _ _ _ _ Hrej) as [_ He1].
    destruct (execute_frame t0 (without_target args) (target_of args) w1) as [_ He2].
    rewrite Hx in He2. simpl in He2.
    rewrite <- Hmap.
    + rewrite He2, He1, map_app, <- app_assoc. done.
    + apply Forall_app in Hsrc as [Hpre Hpost]. apply Forall_app. split; [done|].
      apply Forall_cons in Hpost as [? _]. by constructor.
  - exists (map tr_dest ts). split; [by destruct ts|].
    destruct (rejected_frame _ _ _ _ _ Hrej) as [_ He1].
    by rewrite <- Hmap.
Qed.


(** *** The generic entry point *)

Lemma getattr_ok n a w : model w !! n = Some a → getattr n w = Ok a w.
Proof. intros H. unfold getattr, bind, the_world. cbv beta iota. by rewrite H. Qed.

Lemma dispatch_found n func args generic w :
  model w !! n = Some func →
  truthy_attr func = true →
  dispatch user nested (VStr n) args generic w = call_top user nested func args generic w.
Proof.
  intros Hn Ht. unfold dispatch, bind, the_world. cbv beta iota. by rewrite Hn, Ht.
Qed.

Lemma dispatch_missing n args generic w :
  model w !! n = None ∨ (∃ v, model w !! n = Some (AData v) ∧ truthy v = false) →
  dispatch user nested (VStr n) args generic w = Raise (AttributeError n) w.
Proof.
  unfold dispatch, bind, the_world. cbv beta iota.
  intros [-> | (v & -> & Hv)]; [done|]. simpl. by rewrite Hv.
Qed.

(** On a model that carries the generic entry point, calling
    [trigger(name, ...)] is calling the attribute [name] with the
    remaining arguments, for every attribute that is there and truthy: not
    only the entry point of a trigger, but a method or an accessor as
    well. *)
Theorem generic_entry_is_a_direct_call n rest kws func w :
  model w !! "trigger" = Some AGenericTrigger →
  model w !! n = Some func →
  truthy_attr func = true →
  kws !! "trigger_name" = None →
  invoke user nested "trigger" (mkArgs (VStr n :: rest) kws) w =
  invoke user nested n (mkArgs rest kws) w.
Proof.
  intros Hg Hn Ht Hk. unfold invoke.
  rewrite (bind_ok _ _ _ _ _ (getattr_ok _ _ _ Hg)), (bind_ok _ _ _ _ _ (getattr_ok _ _ _ Hn)).
  simpl. rewrite Hk. by apply dispatch_found.
Qed.

(** The faults of the generic entry point, each in an untouched world: a
    call without a trigger name, or with the name both by position and by
    keyword, or with a name that is not a string, is a [TypeError]; a name
    that the model lacks, or under which it keeps a falsy value such as
    [0], [None] or the empty string, is an [AttributeError]. *)
Theorem generic_entry_faults w :
  model w !! "trigger" = Some AGenericTrigger →
  invoke user nested "trigger" no_args w = Raise TypeError w ∧
  (∀ p rest kws, is_Some (kws !! "trigger_name") →
     invoke user nested "trigger" (mkArgs (p :: rest) kws) w = Raise TypeError w) ∧
  (∀ p rest kws, kws !! "trigger_name" = None → (∀ n, p ≠ VStr n) →
     invoke user nested "trigger" (mkArgs (p :: rest) kws) w = Raise TypeError w) ∧
  (∀ n rest kws, kws !! "trigger_name" = None →
     model w !! n = None ∨ (∃ v, model w !! n = Some (AData v) ∧ truthy v = false) →
     invoke user nested "trigger" (mkArgs (VStr n :: rest) kws) w = Raise (AttributeError n) w).
Proof.
  intros Hg. unfold invoke. rewrite (bind_ok _ _ _ _ _ (getattr_ok _ _ _ Hg)).
  split; [done|]. split; [|split].
  - intros p rest kws [v Hv]. rewrite (bind_ok _ _ _ _ _ (getattr_ok _ _ _ Hg)).
    simpl. by rewrite Hv.
  - intros p rest kws Hk Hp. rewrite (bind_ok _ _ _ _ _ (getattr_ok _ _ _ Hg)).
    simpl. rewrite Hk. destruct p as [| | |n]; try done. by destruct (Hp n).
  - intros n rest kws Hk Hn. rewrite (bind_ok _ _ _ _ _ (getattr_ok _ _ _ Hg)).
    simpl. rewrite Hk. by apply dispatch_missing.
Qed.

(** *** A trigger called [state] *)

(** [add_transition] does not protect the attribute in which the model
    keeps its state: declaring a trigger named [state] puts the entry
    point there, and from then on every trigger raises [ValueError],
    because what it reads from [model.state] is no state name. *)
Theorem trigger_named_state_breaks_every_trigger source dest conditions self args w :
  od_get "state" (m_events (machine w)) = None →
  ∃ w',
    Machine_add_transition "state" source dest conditions w = Ok tt w' ∧
    model w' !! "state" = Some (ATrigger "state") ∧
    Event_trigger user nested self args w' = Raise (ValueError (ATrigger "state")) w'.
Proof.
  intros He. eexists. split; [apply add_transition_run|]. rewrite He.
  assert (Hs : (<["state" := ATrigger "state"]> (model w) : gmap string attr) !! "state"
               = Some (ATrigger "state")) by apply lookup_insert_eq.
  split; [exact Hs|].
  unfold Event_trigger, Event__trigger, getattr, bind, the_world. cbv beta iota.
  cbn [model]. by rewrite Hs.
Qed.

(** *** Machine.initial *)

Lemma constructed_initial states initial w :
  m_initial (machine (constructed states initial w)) = Some initial.
Proof.
  unfold constructed. simpl.
  apply (foldl_inv (fun w' => m_initial (machine w') = Some initial)); [by intros p w' _|].
  done.
Qed.

(** [Machine.initial] reports the initial state that the constructor was
    given, and goes on reporting it after any trigger: it does not follow
    the state of the model. *)
Theorem initial_does_not_follow_the_model states initial w :
  ∃ w',
    Machine_init states initial w = Ok tt w' ∧
    Machine_initial w' = Ok initial w' ∧
    ∀ self args,
      Machine_initial (final (Event_trigger user nested self args w')) =
      Ok initial (final (Event_trigger user nested self args w')).
Proof.
  exists (constructed states initial w). split; [apply init_constructed|].
  assert (H : ∀ w', m_initial (machine w') = Some initial → Machine_initial w' = Ok initial w').
  { intros w' Hw. unfold Machine_initial, bind, the_world. cbv beta iota. by rewrite Hw. }
  split; [apply H, constructed_initial|].
  intros self args. apply H. rewrite trigger_frame. apply constructed_initial.
Qed.


(** *** From the declaration to the first step *)

Lemma constructed_plain names initial w k st :
  od_get k (m_states (machine (constructed (map DName names) initial w))) = Some st →
  state_name st = k ∧
  (is_bound_method (model w) ("on_enter_" +:+ k) = false → state_on_enter st = []) ∧
  (is_bound_method (model w) ("on_exit_" +:+ k) = false → state_on_exit st = []).
Proof.
  intros Hget.
  destruct (constructed_well_formed (map DName names) initial w) as (_ & Hnamed & _).
  split; [by apply (all_named_registry_ok _ Hnamed)|].
  destruct (constructed_bound _ _ _ _ _ Hget) as (d & Hd & _ & Hen & Hex).
  assert (Hplain : ∃ n, d = DName n).
  { apply elem_of_app in Hd as [Hd|Hd].
    - apply list_elem_of_fmap in Hd as (n & -> & _). by exists n.
    - apply list_elem_of_singleton in Hd. by exists initial. }
  destruct Hplain as [n ->]. simpl in Hen, Hex.
  split; intros Hb; [rewrite Hen | rewrite Hex]; by rewrite Hb.
Qed.

Lemma constructed_trace states initial w :
  calls (trace (constructed states initial w)) = calls (trace w) ∧
  executions (trace (constructed states initial w)) = executions (trace w).
Proof.
  destruct (init_run states initial w) as (w' & Hrun & Ht & _).
  rewrite init_constructed in Hrun. injection Hrun as <-.
  rewrite Ht. unfold calls, executions.
  rewrite List.filter_app, omap_app.
  destruct (model w !! "trigger"); simpl; by rewrite !app_nil_r.
Qed.

(** A machine built from state names, given one unguarded transition out
    of its initial state, takes it at the first call of the trigger: the
    call returns [True], the model reports the destination, [execute] was
    entered once, and no user code ran.  The destination has to be a
    declared state, the trigger must not be called [state], and the model
    must not offer the convention callbacks of the two states. *)
Theorem declared_transition_fires names initial dest trigger args w :
  trigger ≠ "state" →
  dest = initial ∨ dest ∈ names →
  is_bound_method (model w) ("on_exit_" +:+ initial) = false →
  is_bound_method (model w) ("on_enter_" +:+ dest) = false →
  ∃ w',
    (Machine_init (map DName names) initial ;;
     Machine_add_transition trigger initial dest CNone ;;
     invoke user nested trigger args) w = Ok (VBool true) w' ∧
    model w' !! "state" = Some (str dest) ∧
    executions (trace w') = executions (trace w) ++ [(initial, dest)] ∧
    calls (trace w') = calls (trace w).
Proof.
  intros Hne Hdest Hexit Henter.
  set (W := constructed (map DName names) initial w).
  assert (Hsrc : is_Some (od_get initial (m_states (machine W)))).
  { apply od_get_Some_names.
    destruct (constructed_names (map DName names) initial w) as (Hn & _ & Hin).
    unfold state_names in Hn, Hin. unfold W. rewrite Hn. apply Hin. by left. }
  assert (Hdst : is_Some (od_get dest (m_states (machine W)))).
  { apply od_get_Some_names.
    destruct (constructed_names (map DName names) initial w) as (Hn & _ & Hin).
    unfold state_names in Hn, Hin. unfold W. rewrite Hn. apply Hin.
    destruct Hdest as [-> | Hd]; [by left|right].
    rewrite <- list_fmap_compose. by rewrite list_fmap_id. }
  destruct Hsrc as [src Hsrc], Hdst as [dst Hdst].
  destruct (constructed_plain _ _ _ _ _ Hsrc) as (Hsn & _ & Hsx).
  destruct (constructed_plain _ _ _ _ _ Hdst) as (Hdn & Hde & _).
  specialize (Hsx Hexit). specialize (Hde Henter).
  set (t := Transition_init initial dest CNone).
  set (e := Event_add_transition (Event_init trigger) t).
  set (W2 := mkWorld (mkMachine (m_states (machine W)) [(trigger, e)] (m_initial (machine W)))
               (<[trigger := ATrigger trigger]> (model W)) (trace W)).
  assert (Hadd : Machine_add_transition trigger initial dest CNone W = Ok tt W2).
  { rewrite add_transition_run.
    pose proof (constructed_events (map DName names) initial w) as Hev. fold W in Hev.
    by rewrite Hev. }
  assert (Hstate : model W2 !! "state" = Some (str initial)).
  { unfold W2. cbn [model]. rewrite lookup_insert_ne; [|done].
    unfold W, constructed, moved. cbn [model]. apply lookup_insert_eq. }
  assert (Hentry : model W2 !! trigger = Some (ATrigger trigger)).
  { unfold W2. cbn [model]. apply lookup_insert_eq. }
  exists (moved dest (begun t W2)).
  split.
  - rewrite (bind_ok _ _ _ _ _ (init_constructed _ _ _)). fold W.
    rewrite (bind_ok _ _ _ _ _ Hadd).
    unfold invoke. rewrite (bind_ok _ _ _ _ _ (getattr_ok _ _ _ Hentry)).
    unfold call_top, call_trigger. rewrite (bind_ok _ _ _ _ _ (the_world_run _)).
    replace (od_get trigger (m_events (machine W2))) with (Some e)
      by (unfold W2; simpl; by destruct (decide (trigger = trigger))).
    unfold Event_trigger. rewrite (trigger_unfold _ _ _ _ _ Hstate Hsrc).
    rewrite Hsn. unfold e. rewrite add_transition_lookup.
    change (tr_source t) with initial. rewrite decide_True by done.
    change (event_transitions (Event_init trigger) !! initial) with (@None (list Transition)).
    simpl app. simpl try_each.
    destruct (execute_passed t (without_target args) (target_of args) W2 (begun t W2))
      as (Hx & _); [apply all_quiet_nil|].
    unfold bind at 1. rewrite Hx.
    change (tr_source t) with initial. change (tr_dest t) with dest.
    assert (Hsrc' : od_get initial (m_states (machine (begun t W2))) = Some src) by exact Hsrc.
    assert (Hdst' : od_get dest (m_states (machine (begun t W2))) = Some dst) by exact Hdst.
    rewrite (bind_ok _ _ _ _ _ (get_state_ok _ _ _ Hsrc')).
    unfold State_exit. rewrite Hsx. simpl for_each.
    unfold bind at 1. unfold ret at 1.
    rewrite (bind_ok _ _ _ _ _ (set_state_ok _ _ _ Hdst')). rewrite Hdn.
    assert (Hdst'' : od_get dest (m_states (machine (moved dest (begun t W2)))) = Some dst)
      by exact Hdst.
    rewrite (bind_ok _ _ _ _ _ (get_state_ok _ _ _ Hdst'')).
    unfold State_enter. rewrite Hde. done.
  - split; [apply lookup_insert_eq|].
    destruct (constructed_trace (map DName names) initial w) as [Hc He].
    cbn [moved begun noted trace W2]. unfold calls, executions.
    rewrite List.filter_app, omap_app. fold (calls (trace W)) (executions (trace W)).
    fold W in Hc, He. rewrite Hc, He. simpl. by rewrite app_nil_r.
Qed.

End Facts.

(** * The engine on the object of example.py *)


Lemma sweaty_registry_ok : registry_ok (machine TestObject.sweaty_harry).
Proof. intros k s. simpl. repeat case_decide; naive_solver. Qed.


(** C3.  On the sweaty object, [nap] has one candidate and its guard
    [is_exhausted] returns [False]: the trigger returns [None], not
    [False], although the docstring of [_trigger] promises a boolean. *)
Theorem trigger_rejected_returns_None :
  ∃ w',
    TestObject.fire "nap" no_args TestObject.napper = Ok VNone w' ∧
    model w' = model TestObject.napper ∧
    py_eq VNone (VBool false) = false.
Proof. eexists. split; [vm_compute; reflexivity|]. split; reflexivity. Qed.

(** C7.  [__init__] binds the model to every state a second time, after
    [add_state] has bound it already, so the convention callback
    [on_exit_asleep] of the example is registered twice on the state
    [asleep] and called twice by one [wake_up]; a state added after the
    construction gets its convention callback once. *)
Theorem convention_callback_bound_twice :
  let built := final (TestObject.init TestObject.blank) in
  let args := mkArgs [VInt 200; VInt 300] ∅ in
  state_on_exit <$> od_get "asleep" (m_states (machine built)) =
    Some [RName "on_exit_asleep"; RName "on_exit_asleep"] ∧
  calls (trace (final (TestObject.fire "wake_up" args built))) =
    [GCallback (RName "on_exit_asleep") args (Some (str "asleep"));
     GCallback (RName "on_exit_asleep") args (Some (str "asleep"))] ∧
  state_on_exit <$>
    od_get "asleep"
      (m_states (machine (final ((Machine_init [DName "hanging"] "hanging" ;;
                                  Machine_add_state (DName "asleep") CNone CNone)
                                   TestObject.blank)))) =
    Some [RName "on_exit_asleep"].
Proof. vm_compute. done. Qed.

(** ** Instances of the theorems *)







(** A model that has a method [wake_up] and an attribute [trigger] of its
    own: the first is replaced, the second is kept. *)
Lemma trigger_entry_points_overwrite_except_generic_witness :
  let m : gmap string attr := <["wake_up" := AMethod 0]> (<["trigger" := AMethod 1]> ∅) in
  let w := mkWorld (mkMachine [] [] None) m [] in
  (∃ w', Machine_add_transition "wake_up" "asleep" "hanging" CNone w = Ok tt w' ∧
         model w' !! "wake_up" = Some (ATrigger "wake_up")) ∧
  (∃ w', Machine_init [DName "asleep"; DName "hanging"] "asleep" w = Ok tt w' ∧
         model w' !! "trigger" = Some (AMethod 1) ∧
         trace w' = [LWarnTrigger]).
Proof.
  intros m w.
  destruct (trigger_entry_points_overwrite_except_generic
    "wake_up" "asleep" "hanging" CNone w [DName "asleep"; DName "hanging"] "asleep" w)
    as ((w1 & H1 & Hm1 & _) & (w2 & H2 & Hm2 & Ht2)).
  - reflexivity.
  - split.
    + exists w1. split; [exact H1|]. rewrite Hm1. reflexivity.
    + exists w2. split; [exact H2|]. split; [exact Hm2 | exact Ht2].
Defined.

(** ** Instances of the further theorems *)

(** [wake_up()] on the fresh object returns [True]. *)
Lemma trigger_returns_True_or_None_witness :
  ∃ v w',
    Event_trigger TestObject.methods TestObject.no_nested
      (TestObject.event "wake_up" TestObject.harry) no_args TestObject.harry = Ok v w' ∧
    (v = VBool true ∨ v = VNone).
Proof.
  eexists _, _. split.
  - vm_compute. reflexivity.
  - eapply (trigger_returns_True_or_None TestObject.methods TestObject.no_nested
              (TestObject.event "wake_up" TestObject.harry) no_args TestObject.harry).
    vm_compute. reflexivity.
Defined.



Lemma rejected_trigger_calls_no_callback_witness :
  ∃ w',
    Event_trigger TestObject.methods TestObject.no_nested
      (TestObject.event "nap" TestObject.napper) no_args TestObject.napper = Ok VNone w' ∧
    appended no_callback TestObject.napper w' ∧
    machine w' = machine TestObject.napper.
Proof.
  eexists. split.
  - vm_compute. reflexivity.
  - apply (rejected_trigger_calls_no_callback TestObject.methods TestObject.no_nested
             (TestObject.event "nap" TestObject.napper) no_args TestObject.napper).
    vm_compute. reflexivity.
Defined.


